(** * kafka-health: the replication probe of [main.go]

    The program is one [main] function: it parses four flags, opens a
    sarama client, settles the list of topics, and walks every partition
    of every topic, leaving through [logrus]'s [Fatal] as soon as one
    partition is not replicated as required.

    The embedding follows the source line by line.  Calls on the broker
    client and lines written to the log are recorded in a trace; leaving
    the process through [os.Exit] is an outcome of its own, so that what
    runs (and what does not run) after a [Fatal] can be stated.

    The logger package vendored with the program (levels, options,
    loggers and the conversion of key-value pairs into fields) is
    embedded in module [probe] and has its own properties at the end. *)

From Stdlib Require Import ZArith String Ascii List Lia DecimalString.
From stdpp Require Import base gmap strings list.

Open Scope string_scope.
Open Scope list_scope.
Open Scope Z_scope.

(** ** Go values *)

(** A Go [error], represented by the text of its [Error()] method. *)
Definition error := string.

(** The pair [(value, err)] returned by a fallible Go call. *)
Inductive result (A : Type) : Type :=
| Ok (a : A)
| Err (e : error).
Arguments Ok {A} a.
Arguments Err {A} e.

(** [strings.Split(s, ",")]: the pieces of [s] between commas.  The result
    is never empty; the empty string gives one empty piece. *)
Fixpoint Split (s : string) : list string :=
  match s with
  | EmptyString => [EmptyString]
  | String c s' =>
      if Ascii.eqb c ","%char then EmptyString :: Split s'
      else match Split s' with
           | piece :: pieces => String c piece :: pieces
           | [] => [String c EmptyString]
           end
  end.

(** The verb [%d] (and [%v]) of package [fmt] on an integer. *)
Definition fmt_d (z : Z) : string := NilZero.string_of_int (Z.to_int z).

(** [%v] on a slice of integers: the elements in brackets, separated by
    spaces. *)
Fixpoint fmt_ints (l : list Z) : string :=
  match l with
  | [] => ""
  | [z] => fmt_d z
  | z :: l' => fmt_d z +:+ " " +:+ fmt_ints l'
  end.

(** The operands handed to [fmt.Sprint] in this program. *)
Inductive operand :=
| OString (s : string)
| OInt (z : Z)
| OInts (l : list Z).

Definition isString (o : operand) : bool :=
  match o with OString _ => true | _ => false end.

Definition printArg (o : operand) : string :=
  match o with
  | OString s => s
  | OInt z => fmt_d z
  | OInts l => "[" +:+ fmt_ints l +:+ "]"
  end.

(** [fmt.Sprint]: operands in their default format, a space between two
    operands when neither is a string. *)
Fixpoint doPrint (first prevString : bool) (a : list operand) : string :=
  match a with
  | [] => ""
  | arg :: a' =>
      (if negb first && negb (isString arg) && negb prevString then " " else "")
      +:+ printArg arg +:+ doPrint false (isString arg) a'
  end.

Definition Sprint (a : list operand) : string := doPrint true false a.

(** ** logrus

    [logrus] is imported by [main.go]; its source is not part of this
    tree.  Levels, their names and [ParseLevel] are given as the library
    defines them (the six levels every release has).  The usage text in
    [README.md], printed from the flag defaults, shows the name of
    [WarnLevel]: [-logLevel="warning"]. *)
Module logrus.

Inductive Level := PanicLevel | FatalLevel | ErrorLevel | WarnLevel | InfoLevel | DebugLevel.

(** The numeric value of a level: the more verbose, the larger. *)
Definition severity (l : Level) : Z :=
  match l with
  | PanicLevel => 0 | FatalLevel => 1 | ErrorLevel => 2
  | WarnLevel => 3 | InfoLevel => 4 | DebugLevel => 5
  end.

Definition lower (a : ascii) : ascii :=
  let n := nat_of_ascii a in
  if (Nat.leb 65 n && Nat.leb n 90)%bool then ascii_of_nat (n + 32) else a.

(** [strings.ToLower], as far as [ParseLevel] can see it: ASCII letters
    are lowered, and so are the two other runes whose lower case is an
    ASCII letter (U+0130 and U+212A, in UTF-8).  Any other rune stays
    outside ASCII and cannot make the result equal to a level name. *)
Fixpoint ToLower (s : string) : string :=
  match s with
  | EmptyString => EmptyString
  | String "196"%char (String "176"%char s') => String "i"%char (ToLower s')
  | String "226"%char (String "132"%char (String "170"%char s')) =>
      String "k"%char (ToLower s')
  | String a s' => String (lower a) (ToLower s')
  end.

(** [ParseLevel]: the level named by a string, whatever its case. *)
Definition ParseLevel (lvl : string) : result Level :=
  let l := ToLower lvl in
  if String.eqb l "panic" then Ok PanicLevel
  else if String.eqb l "fatal" then Ok FatalLevel
  else if String.eqb l "error" then Ok ErrorLevel
  else if (String.eqb l "warn" || String.eqb l "warning")%bool then Ok WarnLevel
  else if String.eqb l "info" then Ok InfoLevel
  else if String.eqb l "debug" then Ok DebugLevel
  else Err ("not a valid logrus Level: " +:+ lvl).

(** The values stored under the keys of a [Fields] map in this program. *)
Inductive value :=
| VString (s : string)
| VStrings (l : list string)
| VInt (z : Z)
| VError (e : error).

(** One log entry: its fields, its level and its message (the time
    stamp is left out). *)
Record Entry := {
  Data : gmap string value;
  Level_of : Level;
  Message : string
}.

(** A logger: all that varies in this program is its level. *)
Record Logger := { level : Level }.

(** [logger.level() >= lvl]. *)
Definition IsLevelEnabled (log : Logger) (lvl : Level) : bool :=
  (severity lvl <=? severity (level log))%Z.

(** [Level.String]. *)
Definition String (l : Level) : string :=
  match l with
  | DebugLevel => "debug"
  | InfoLevel => "info"
  | WarnLevel => "warning"
  | ErrorLevel => "error"
  | FatalLevel => "fatal"
  | PanicLevel => "panic"
  end.

End logrus.

Abbreviation Entry := logrus.Entry.

(** ** The vendored logger

    [vendor/.../probe/log/loglevel.go].  [main.go] does not import this
    package; its levels are the five names fatal, error, warn, info and
    debug. *)
Module probe_log.

Inductive Level := FatalLevel | ErrorLevel | WarnLevel | InfoLevel | DebugLevel.

(** [Level.String], on the five declared levels. *)
Definition String (l : Level) : string :=
  match l with
  | FatalLevel => "fatal"
  | ErrorLevel => "error"
  | WarnLevel => "warn"
  | InfoLevel => "info"
  | DebugLevel => "debug"
  end.

(** [Level.Set]: the level named by a string, in lower or upper case. *)
Definition Set_ (lvl : string) : result Level :=
  if (String.eqb lvl "fatal" || String.eqb lvl "FATAL")%bool then Ok FatalLevel
  else if (String.eqb lvl "error" || String.eqb lvl "ERROR")%bool then Ok ErrorLevel
  else if (String.eqb lvl "warn" || String.eqb lvl "WARN")%bool then Ok WarnLevel
  else if (String.eqb lvl "info" || String.eqb lvl "INFO")%bool then Ok InfoLevel
  else if (String.eqb lvl "debug" || String.eqb lvl "DEBUG")%bool then Ok DebugLevel
  else Err ("invalid level " +:+ lvl).

End probe_log.

(** ** The broker client

    [sarama.Client], as far as [main] uses it: the metadata of the cluster
    at the time of the run.  [Close] returns an error that [main] drops. *)
Record Client := {
  Topics : result (list string);
  Partitions : string -> result (list Z);
  Replicas : string -> Z -> result (list Z)
}.

(** ** Effects of the process *)

(** What the process does that can be seen from outside. *)
Inductive event :=
| Stdout (e : Entry)
| Call_NewClient (addrs : list string)
| Call_Topics
| Call_Partitions (topic : string)
| Call_Replicas (topic : string) (partitionID : Z)
| Call_Close.

(** A computation either hands a value to what follows or leaves the
    process through [os.Exit]. *)
Inductive outcome (A : Type) : Type :=
| Return (a : A)
| Exit (code : Z).
Arguments Return {A} a.
Arguments Exit {A} code.

Definition proc (A : Type) : Type := (list event * outcome A)%type.

Definition ret {A} (a : A) : proc A := ([], Return a).

Definition bind {A B} (m : proc A) (k : A -> proc B) : proc B :=
  match m with
  | (tr, Return a) => let (tr', r) := k a in (tr ++ tr', r)
  | (tr, Exit code) => (tr, Exit code)
  end.

Declare Scope proc_scope.
Delimit Scope proc_scope with proc.
Notation "x <- c1 ;; c2" := (bind c1 (fun x => c2))
  (at level 100, c1 at next level, right associativity) : proc_scope.
Notation "c1 ;; c2" := (bind c1 (fun _ => c2))
  (at level 100, right associativity) : proc_scope.
Open Scope proc_scope.

Definition emit (ev : event) : proc unit := ([ev], Return tt).

(** [os.Exit(code)]: the process ends here; nothing that follows runs. *)
Definition os_Exit {A} (code : Z) : proc A := ([], Exit code).

(** [for _, x := range l { body }]. *)
Fixpoint for_range {A} (l : list A) (body : A -> proc unit) : proc unit :=
  match l with
  | [] => ret tt
  | x :: l' => body x ;; for_range l' body
  end.

(** [defer f()] placed before [body]: [f] runs when the function returns;
    it does not run when the process leaves through [os.Exit]. *)
Definition defer {A} (deferred : proc unit) (body : proc A) : proc A :=
  match body with
  | (tr, Return a) => (tr ++ fst deferred, Return a)
  | (tr, Exit code) => (tr, Exit code)
  end.

Definition trace {A} (p : proc A) : list event := fst p.
Definition result_of {A} (p : proc A) : outcome A := snd p.

(** The exit status of the process whose [main] is [p]. *)
Definition exit_status (p : proc unit) : Z :=
  match result_of p with
  | Return _ => 0
  | Exit code => code
  end.

(** A call on the broker library: the call is recorded, its answer handed
    on. *)
Definition call {A} (ev : event) (answer : A) : proc A := ([ev], Return answer).

(** ** Logging through logrus *)

(** An entry is written when the level of the logger lets it through. *)
Definition Log (log : logrus.Logger) (lvl : logrus.Level)
    (fields : gmap string logrus.value) (msg : string) : proc unit :=
  if logrus.IsLevelEnabled log lvl
  then emit (Stdout {| logrus.Data := fields; logrus.Level_of := lvl; logrus.Message := msg |})
  else ret tt.

Definition Info (log : logrus.Logger) (fields : gmap string logrus.value)
    (msg : string) : proc unit :=
  Log log logrus.InfoLevel fields msg.

Definition Debug (log : logrus.Logger) (fields : gmap string logrus.value)
    (msg : string) : proc unit :=
  Log log logrus.DebugLevel fields msg.

(** [Fatal] and [Fatalf]: the entry is logged if the level allows it, then
    the process exits with status 1, whatever the level. *)
Definition Fatal {A} (log : logrus.Logger) (fields : gmap string logrus.value)
    (msg : string) : proc A :=
  Log log logrus.FatalLevel fields msg ;; os_Exit 1.

(** ** Flags (main.go, lines 12-18) *)

(** What the command line (or the environment) supplies for each flag,
    once read by the flag library: a string, or an integer for
    [-replicaLevel]; [None] for a flag that is not supplied. *)
Record CommandLine := {
  arg_logLevel : option string;
  arg_broker : option string;
  arg_topics : option string;
  arg_replicaLevel : option Z
}.

(** [flag.String] and [flag.Int] after [flag.Parse]: the value supplied,
    or else the default. *)
Definition flag_String (value : string) (supplied : option string) : string :=
  default value supplied.
Definition flag_Int (value : Z) (supplied : option Z) : Z :=
  default value supplied.

Definition logLevel (cl : CommandLine) : string :=
  flag_String (logrus.String logrus.WarnLevel) (arg_logLevel cl).
Definition broker (cl : CommandLine) : string :=
  flag_String "localhost:9092" (arg_broker cl).
Definition topics (cl : CommandLine) : string :=
  flag_String "" (arg_topics cl).
Definition replicaLevel (cl : CommandLine) : Z :=
  flag_Int 2 (arg_replicaLevel cl).

(** The defaults as the usage text of [README.md] prints them. *)
Definition README_usage : list (string * string) :=
  [("broker", "localhost:9092"); ("logLevel", "warning");
   ("replicaLevel", "2"); ("topics", "")].

(** Lines 26-30: the level of the logger; a name that does not parse
    leaves the warn level. *)
Definition myLogLevel (cl : CommandLine) : logrus.Level :=
  match logrus.ParseLevel (logLevel cl) with
  | Ok l => l
  | Err _ => logrus.WarnLevel
  end.

(** Lines 40-41. *)
Definition brokersList (cl : CommandLine) : list string := Split (broker cl).
Definition topicsList (cl : CommandLine) : list string := Split (topics cl).

(** ** The body of [main] *)

(** Lines 57-64: the topics to check.  A list made of one empty name asks
    the broker for all its topics. *)
Definition resolve (log : logrus.Logger) (client : Client)
    (topicsList : list string) : proc (list string) :=
  if (Nat.eqb (length topicsList) 1 && String.eqb (nth 0 topicsList "") "")%bool
  then
    r <- call Call_Topics (Topics client) ;;
    match r with
    | Err err => Fatal log {[ "err" := logrus.VError err ]} "Error Listing Topics"
    | Ok topicsList => ret topicsList
    end
  else ret topicsList.

(** Line 94: the condition under which a partition is reported. *)
Definition not_fully_replicated (replicaLevel : Z) (replicas : list Z) : bool :=
  ((0 <? replicaLevel) && negb (Z.of_nat (length replicas) =? replicaLevel))%bool.

(** Lines 83-99: the body of the loop over partitions. *)
Definition check_partition (log : logrus.Logger) (replicaLevel : Z)
    (client : Client) (topic : string) (partition : Z) : proc unit :=
  r <- call (Call_Replicas topic partition) (Replicas client topic partition) ;;
  match r with
  | Err err =>
      Fatal log
        {[ "topic" := logrus.VString topic; "partition" := logrus.VInt partition ]}
        "Error listing partitions"
  | Ok replicas =>
      Debug log ∅
        (Sprint [OString "found topic"; OString "topic"; OString topic;
                 OString "partition"; OInt partition;
                 OString "replica"; OInts replicas]) ;;
      if not_fully_replicated replicaLevel replicas
      then
        Fatal log
          {[ "topic" := logrus.VString topic; "partition" := logrus.VInt partition ]}
          ("topics " +:+ topic +:+ ":" +:+ fmt_d partition +:+ " is not fully replicated")
      else ret tt
  end.

(** Lines 74-100: the body of the loop over topics. *)
Definition check_topic (log : logrus.Logger) (replicaLevel : Z)
    (client : Client) (topic : string) : proc unit :=
  r <- call (Call_Partitions topic) (Partitions client topic) ;;
  match r with
  | Err err =>
      Fatal log
        {[ "err" := logrus.VError err; "topic" := logrus.VString topic ]}
        "Error Listing Partitions"
  | Ok partitions =>
      for_range partitions (check_partition log replicaLevel client topic)
  end.

(** Lines 73-101: all topics, in the order given. *)
Definition evaluate (log : logrus.Logger) (replicaLevel : Z)
    (client : Client) (topicsList : list string) : proc unit :=
  for_range topicsList (check_topic log replicaLevel client).

(** Lines 22-33: the logger of the run, at the level asked for. *)
Definition new_logger (cl : CommandLine) : logrus.Logger :=
  {| logrus.level := myLogLevel cl |}.

(** Lines 55-101: what [main] does between the connection and its
    return. *)
Definition checks (log : logrus.Logger) (cl : CommandLine) (client : Client)
    : proc unit :=
  topicsList <- resolve log client (topicsList cl) ;;
  Debug log
    {[ "topics" := logrus.VStrings topicsList;
       "len" := logrus.VInt (Z.of_nat (length topicsList)) ]}
    "topic list generated" ;;
  evaluate log (replicaLevel cl) client topicsList.

Section Main.

(** The version string, set when the binary is linked. *)
Variable version : string.

(** [sarama.NewClient] with the configuration of lines 44-46: the
    cluster reached through the given addresses, or an error. *)
Variable sarama_NewClient : list string -> result Client.

(** Lines 20-102. *)
Definition main (cl : CommandLine) : proc unit :=
  let log := new_logger cl in
  Info log
    {[ "version" := logrus.VString version; "brokers" := logrus.VString (broker cl) ]}
    "starting app" ;;
  r <- call (Call_NewClient (brokersList cl)) (sarama_NewClient (brokersList cl)) ;;
  match r with
  | Err err => Fatal log ∅ ("Failed to start sarama client: " +:+ err)
  | Ok client => defer (emit Call_Close) (checks log cl client)
  end.

End Main.

(** ** The verdict, as the specification words it *)

Inductive MetadataError :=
| TopicListError (cause : error)
| PartitionListError (topic : string) (cause : error)
| ReplicaSetError (topic : string) (partition : Z) (cause : error).

Inductive EvaluationVerdict :=
| Healthy
| Unhealthy (topic : string) (partition : Z) (expected actual : Z)
| EvaluationError (cause : MetadataError).

(** Section 4.1: one empty name stands for all the topics of the broker;
    any other list is returned as it is. *)
Definition spec_resolve (requestedTopics : list string) (client : Client)
    : result (list string) :=
  match requestedTopics with
  | [EmptyString] => Topics client
  | _ => Ok requestedTopics
  end.

(** Section 4.2, step 2b: level 0 only asks that the replicas be listed;
    any other level asks for exactly that many replicas. *)
Definition spec_policy (replicaLevel : Z) (replicaSet : list Z) : bool :=
  if replicaLevel =? 0 then true
  else Z.of_nat (length replicaSet) =? replicaLevel.

(** Section 4.2, step 2: the partitions of one topic, in order; the first
    failure is the verdict. *)
Fixpoint spec_evaluate_partitions (topic : string) (partitions : list Z)
    (replicaLevel : Z) (client : Client) : EvaluationVerdict :=
  match partitions with
  | [] => Healthy
  | partition :: rest =>
      match Replicas client topic partition with
      | Err e => EvaluationError (ReplicaSetError topic partition e)
      | Ok replicaSet =>
          if spec_policy replicaLevel replicaSet
          then spec_evaluate_partitions topic rest replicaLevel client
          else Unhealthy topic partition replicaLevel (Z.of_nat (length replicaSet))
      end
  end.

(** Section 4.2: the topics, in order. *)
Fixpoint spec_evaluate (topics : list string) (replicaLevel : Z)
    (client : Client) : EvaluationVerdict :=
  match topics with
  | [] => Healthy
  | topic :: rest =>
      match Partitions client topic with
      | Err e => EvaluationError (PartitionListError topic e)
      | Ok partitions =>
          match spec_evaluate_partitions topic partitions replicaLevel client with
          | Healthy => spec_evaluate rest replicaLevel client
          | verdict => verdict
          end
      end
  end.

(** Sections 2 and 4: the resolver feeds the evaluator. *)
Definition spec_run (requestedTopics : list string) (replicaLevel : Z)
    (client : Client) : EvaluationVerdict :=
  match spec_resolve requestedTopics client with
  | Err e => EvaluationError (TopicListError e)
  | Ok topics => spec_evaluate topics replicaLevel client
  end.

(** ** Reading a run *)

(** The lines written to the log, in order. *)
Definition stdout (tr : list event) : list Entry :=
  omap (fun ev => match ev with Stdout e => Some e | _ => None end) tr.

(** The calls on the broker client, in order. *)
Definition is_query (ev : event) : bool :=
  match ev with
  | Call_Topics | Call_Partitions _ | Call_Replicas _ _ => true
  | _ => false
  end.
Definition queries (tr : list event) : list event := List.filter is_query tr.

(** The last line written by a run: on a failing run, the failure report. *)
Definition failure_report (p : proc unit) : option Entry := last (stdout (trace p)).

(** How many times the client is closed. *)
Definition is_close (ev : event) : bool :=
  match ev with Call_Close => true | _ => false end.
Definition closes (tr : list event) : nat := length (List.filter is_close tr).

(** A process that is never seen to close the client and that leaves, if
    it leaves, with status 1. *)
Definition keeps_open {A} (p : proc A) : Prop :=
  closes (trace p) = 0%nat /\ forall code, result_of p = Exit code -> code = 1.

(** A call on the client that the broker answered with an error. *)
Definition failed (client : Client) (ev : event) : Prop :=
  match ev with
  | Call_Topics => exists e, Topics client = Err e
  | Call_Partitions topic => exists e, Partitions client topic = Err e
  | Call_Replicas topic partition => exists e, Replicas client topic partition = Err e
  | _ => False
  end.

(** A process that returns unless the last thing it asked the broker
    failed. *)
Definition stops_on_failed_query {A} (client : Client) (p : proc A) : Prop :=
  (exists a, result_of p = Return a)
  \/ exists ev, last (queries (trace p)) = Some ev /\ failed client ev.

(** The entry that the [Fatal] call behind each verdict hands to the
    logger: lines 60-62, 76-79, 85-88 and 95-98. *)
Definition fatal_entry (verdict : EvaluationVerdict) : option Entry :=
  match verdict with
  | Healthy => None
  | Unhealthy topic partition _ _ =>
      Some {| logrus.Data :=
                {[ "topic" := logrus.VString topic; "partition" := logrus.VInt partition ]};
              logrus.Level_of := logrus.FatalLevel;
              logrus.Message :=
                "topics " +:+ topic +:+ ":" +:+ fmt_d partition +:+ " is not fully replicated" |}
  | EvaluationError (TopicListError err) =>
      Some {| logrus.Data := {[ "err" := logrus.VError err ]};
              logrus.Level_of := logrus.FatalLevel;
              logrus.Message := "Error Listing Topics" |}
  | EvaluationError (PartitionListError topic err) =>
      Some {| logrus.Data :=
                {[ "err" := logrus.VError err; "topic" := logrus.VString topic ]};
              logrus.Level_of := logrus.FatalLevel;
              logrus.Message := "Error Listing Partitions" |}
  | EvaluationError (ReplicaSetError topic partition _) =>
      Some {| logrus.Data :=
                {[ "topic" := logrus.VString topic; "partition" := logrus.VInt partition ]};
              logrus.Level_of := logrus.FatalLevel;
              logrus.Message := "Error listing partitions" |}
  end.

Definition is_Healthy (verdict : EvaluationVerdict) : bool :=
  match verdict with Healthy => true | _ => false end.

(** The reading of "the failure report describes a quantity of the
    verdict": the quantity can be read off the report of every run whose
    verdict is [Unhealthy]. *)
Definition report_describes (quantity : Z -> Z -> Z) : Prop :=
  exists read : Entry -> Z,
    forall version sarama_NewClient cl client topic partition expected actual entry,
      sarama_NewClient (brokersList cl) = Ok client ->
      spec_run (topicsList cl) (replicaLevel cl) client =
        Unhealthy topic partition expected actual ->
      failure_report (main version sarama_NewClient cl) = Some entry ->
      read entry = quantity expected actual.

(** [strings.Join(l, ",")], against which [Split] is read. *)
Fixpoint Join (l : list string) : string :=
  match l with
  | [] => ""
  | [piece] => piece
  | piece :: pieces => piece +:+ "," +:+ Join pieces
  end.

(** Whether a string holds a comma. *)
Fixpoint has_comma (s : string) : bool :=
  match s with
  | EmptyString => false
  | String c s' => (Ascii.eqb c ","%char || has_comma s')%bool
  end.

(** The partitions the broker lists for a topic; none when it fails. *)
Definition partitions_of (client : Client) (topic : string) : list Z :=
  match Partitions client topic with
  | Ok partitions => partitions
  | Err _ => []
  end.

(** What the process does apart from writing its log. *)
Definition is_stdout (ev : event) : bool :=
  match ev with Stdout _ => true | _ => false end.
Definition calls (tr : list event) : list event :=
  List.filter (fun ev => negb (is_stdout ev)) tr.

(** Two processes that end alike and act alike on the outside, whatever
    they log. *)
Definition same_calls {A} (p q : proc A) : Prop :=
  result_of p = result_of q /\ calls (trace p) = calls (trace q).


(** A replica query answered with a number of replicas that line 94
    reports. *)
Definition wrong_size (replicaLevel : Z) (client : Client) (ev : event) : Prop :=
  match ev with
  | Call_Replicas topic partition =>
      exists replicas,
        Replicas client topic partition = Ok replicas
        /\ 0 < replicaLevel /\ Z.of_nat (length replicas) <> replicaLevel
  | _ => False
  end.

(** A process that returns, or leaves with status 1 right after a call on
    the broker that failed or gave the wrong number of replicas. *)
Definition stops_at_culprit {A} (replicaLevel : Z) (client : Client) (p : proc A) : Prop :=
  match result_of p with
  | Return _ => True
  | Exit code =>
      code = 1
      /\ exists ev, last (queries (trace p)) = Some ev
                   /\ (failed client ev \/ wrong_size replicaLevel client ev)
  end.

(** ** The vendored logger: levels, options and loggers

    [loglevel.go], [option.go] and [logger.go] of package [log] under
    [vendor/.../probe].  The package wraps [zap], which is imported: of
    zap the model keeps the names of the levels this package uses, the
    fields handed to it, and the context that [With] adds to a zap
    logger.  What zap decides in [Check], how [fmt] formats and what the
    runtime reports are parameters of [Log]. *)
Module probe.

(** [type Level int], with the five constants of lines 16-27. *)
Definition Level := Z.
Definition FatalLevel : Level := 0.
Definition ErrorLevel : Level := 1.
Definition WarnLevel : Level := 2.
Definition InfoLevel : Level := 3.
Definition DebugLevel : Level := 4.

(** [Level.String] (loglevel.go, lines 30-45). *)
Definition String (l : Level) : string :=
  if l =? FatalLevel then "fatal"
  else if l =? ErrorLevel then "error"
  else if l =? WarnLevel then "warn"
  else if l =? InfoLevel then "info"
  else if l =? DebugLevel then "debug"
  else "invalid level(" +:+ fmt_d l +:+ ")".

(** [Level.Set] (lines 49-65) on a receiver holding [l]: the level the
    receiver holds afterwards, and the error returned. *)
Definition Set_ (l : Level) (lvl : string) : Level * option error :=
  if (String.eqb lvl "fatal" || String.eqb lvl "FATAL")%bool then (FatalLevel, None)
  else if (String.eqb lvl "error" || String.eqb lvl "ERROR")%bool then (ErrorLevel, None)
  else if (String.eqb lvl "warn" || String.eqb lvl "WARN")%bool then (WarnLevel, None)
  else if (String.eqb lvl "info" || String.eqb lvl "INFO")%bool then (InfoLevel, None)
  else if (String.eqb lvl "debug" || String.eqb lvl "DEBUG")%bool then (DebugLevel, None)
  else (l, Some ("invalid level " +:+ lvl)).

(** The levels of zap that this package names. *)
Inductive zap_Level :=
| zap_DebugLevel | zap_InfoLevel | zap_WarnLevel | zap_ErrorLevel | zap_FatalLevel.

(** [tozaplevel] (lines 67-82). *)
Definition tozaplevel (lvl : Level) : zap_Level :=
  if lvl =? FatalLevel then zap_FatalLevel
  else if lvl =? ErrorLevel then zap_ErrorLevel
  else if lvl =? WarnLevel then zap_WarnLevel
  else if lvl =? InfoLevel then zap_InfoLevel
  else if lvl =? DebugLevel then zap_DebugLevel
  else zap_InfoLevel.

(** A value of type [interface{}]: a string, an error, or a value of
    another type, kept by the name of its type and the text [%v] prints
    for it. *)
Inductive any :=
| any_string (s : string)
| any_error (e : error)
| any_other (type text : string).

(** [%v] on such a value. *)
Definition fmt_v (v : any) : string :=
  match v with
  | any_string s => s
  | any_error e => e
  | any_other _ text => text
  end.

(** [zap.Field], as built by [zap.Any] and [zap.String]. *)
Inductive Field :=
| zap_Any (key : string) (val : any)
| zap_String (key val : string).

(** [zapfields] (logger.go, lines 189-207): key-value pairs into fields,
    two values at a time. *)
Fixpoint zapfields (keyvals : list any) : list Field :=
  match keyvals with
  | [] => []
  | [k] =>
      [zap_String "PROBE_ERROR"
         ("found the key '" +:+ fmt_v k
          +:+ "' dangling. Did you mean to use (Debugf/Infof/etc) instead?")]
  | k :: val :: rest =>
      match k with
      | any_string key => zap_Any key val :: zapfields rest
      | _ =>
          zap_String "PROBE_ERROR"
            ("invalid non-string key " +:+ fmt_v k
             +:+ ". Did you mean to use (Debugf/Infof/etc) instead?")
          :: zap_Any "" val :: zapfields rest
      end
  end.

(** [strOrErr] (lines 310-319): [None] stands for the panic. *)
Definition strOrErr (v : any) : option string :=
  match v with
  | any_string soe => Some soe
  | any_error soe => Some soe
  | any_other _ _ => None
  end.

(** [Option]: its [apply] is not exported, so the options are those the
    package builds (option.go, lines 16-45); a nil option, on which [New]
    panics, is left out. *)
Inductive Option :=
| WithLogLevel (lvl : Level)
| WithDisplayCaller (display : bool).

Definition WithError : Option := WithLogLevel ErrorLevel.
Definition WithWarn : Option := WithLogLevel WarnLevel.
Definition WithInfo : Option := WithLogLevel InfoLevel.
Definition WithDebug : Option := WithLogLevel DebugLevel.

(** [Logger] (logger.go, lines 26-35).  [l] is the zap logger, kept by the
    context its entries carry; [alvl] is the level zap filters at. *)
Record Logger := {
  lvl : Level;
  l : list Field;
  with_ : list Field;
  alvl : zap_Level;
  opts : list Option;
  caller : bool;
  callSkip : Z
}.

(** [apply] of an option on a logger. *)
Definition Option_apply (o : Option) (lg : Logger) : Logger :=
  match o with
  | WithLogLevel v =>
      {| lvl := v; l := l lg; with_ := with_ lg; alvl := tozaplevel v;
         opts := opts lg; caller := caller lg; callSkip := callSkip lg |}
  | WithDisplayCaller display =>
      {| lvl := lvl lg; l := l lg; with_ := with_ lg; alvl := alvl lg;
         opts := opts lg; caller := display; callSkip := 3 |}
  end.

(** [New] (lines 38-68). *)
Definition New (options : list Option) : Logger :=
  fold_left (fun lg o => Option_apply o lg) options
    {| lvl := InfoLevel; l := []; with_ := []; alvl := zap_InfoLevel;
       opts := options; caller := true; callSkip := 3 |}.

(** [SetLevel] and [GetLevel] (lines 150-158). *)
Definition SetLevel (lg : Logger) (v : Level) : Logger :=
  {| lvl := v; l := l lg; with_ := with_ lg; alvl := tozaplevel v;
     opts := opts lg; caller := caller lg; callSkip := callSkip lg |}.
Definition GetLevel (lg : Logger) : Level := lvl lg.

(** [clone] (lines 168-177): a new logger from the options, given the
    level and the fields of the old one. *)
Definition clone (lg : Logger) : Logger :=
  let nl := New (opts lg) in
  {| lvl := lvl lg; l := l nl ++ with_ lg; with_ := with_ lg; alvl := alvl lg;
     opts := opts nl; caller := caller nl; callSkip := callSkip nl |}.

(** [WithCallSkip] (lines 162-166). *)
Definition WithCallSkip (lg : Logger) (skip : Z) : Logger :=
  let nl := clone lg in
  {| lvl := lvl nl; l := l nl; with_ := with_ nl; alvl := alvl nl;
     opts := opts nl; caller := caller nl; callSkip := skip |}.

(** [With] (lines 180-186). *)
Definition With (lg : Logger) (keyvals : list any) : Logger :=
  let nl := clone lg in
  let zf := zapfields keyvals in
  {| lvl := lvl nl; l := l nl ++ zf; with_ := with_ nl ++ zf; alvl := alvl nl;
     opts := opts nl; caller := caller nl; callSkip := callSkip nl |}.

(** What [Log] hands to zap: the level and message of [Check], the fields
    of [Write]. *)
Record Entry := {
  Level_of : zap_Level;
  Message : string;
  Fields : list Field
}.

Section Logging.

(** [fmt.Sprint] and [fmt.Sprintf]. *)
Variable Sprint : list any -> string.
Variable Sprintf : string -> list any -> string.

(** Whether [Check] of a zap logger filtering at the first level returns
    an entry for the second level and the message. *)
Variable zap_Check : zap_Level -> zap_Level -> string -> bool.

(** [string(debug.Stack())] and [caller(skip)]. *)
Variable debug_Stack : string.
Variable runtime_caller : Z -> any.

(** [Logger.Log] (lines 74-97): the entry written, if any. *)
Definition Log (lg : Logger) (level : Level) (format : string)
    (formatArgs keyvals : list any) : option Entry :=
  if lvl lg <? level then None
  else
    let msg :=
      if (String.eqb format "" && Nat.ltb 0 (length formatArgs))%bool
      then Sprint formatArgs
      else if (negb (String.eqb format "") && Nat.ltb 0 (length formatArgs))%bool
      then Sprintf format formatArgs
      else format in
    if zap_Check (alvl lg) (tozaplevel level) msg then
      let fs := zapfields keyvals in
      let fs := if level =? FatalLevel
                then fs ++ [zap_Any "stacktrace" (any_string debug_Stack)] else fs in
      let fs := if caller lg
                then fs ++ [zap_Any "caller" (runtime_caller (callSkip lg))] else fs in
      Some {| Level_of := tozaplevel level; Message := msg; Fields := fs |}
    else None.

(** The helpers of lines 99-147 that take a message and key-value pairs. *)
Definition Warn (lg : Logger) (msg : string) (keyvals : list any) : option Entry :=
  Log lg WarnLevel msg [] keyvals.
Definition Info (lg : Logger) (msg : string) (keyvals : list any) : option Entry :=
  Log lg InfoLevel msg [] keyvals.
Definition Debug (lg : Logger) (msg : string) (keyvals : list any) : option Entry :=
  Log lg DebugLevel msg [] keyvals.

(** [Error] and [Fatal] take a string or an error; the outer [None] is
    the panic of [strOrErr] on anything else. *)
Definition Error (lg : Logger) (msgOrError : any) (keyvals : list any)
    : option (option Entry) :=
  match strOrErr msgOrError with
  | Some msg => Some (Log lg ErrorLevel msg [] keyvals)
  | None => None
  end.
Definition Fatal (lg : Logger) (msgOrError : any) (keyvals : list any)
    : option (option Entry) :=
  match strOrErr msgOrError with
  | Some msg => Some (Log lg FatalLevel msg [] keyvals)
  | None => None
  end.

(** The helpers that take a format and its arguments. *)
Definition Errorf (lg : Logger) (format : string) (args : list any) : option Entry :=
  Log lg ErrorLevel format args [].
Definition Warnf (lg : Logger) (format : string) (args : list any) : option Entry :=
  Log lg WarnLevel format args [].
Definition Infof (lg : Logger) (format : string) (args : list any) : option Entry :=
  Log lg InfoLevel format args [].
Definition Debugf (lg : Logger) (format : string) (args : list any) : option Entry :=
  Log lg DebugLevel format args [].
Definition Fatalf (lg : Logger) (format : string) (args : list any) : option Entry :=
  Log lg FatalLevel format args [].

End Logging.

(** Key-value pairs as a caller writes them: key, value, key, value. *)
Definition keyvals_of (pairs : list (string * any)) : list any :=
  flat_map (fun kv => [any_string (fst kv); snd kv]) pairs.




(** The loggers a program can hold: made by [New], changed by [SetLevel],
    derived by [With] and [WithCallSkip]. *)
Inductive reachable : Logger -> Prop :=
| reach_New options : reachable (New options)
| reach_SetLevel lg v : reachable lg -> reachable (SetLevel lg v)
| reach_With lg keyvals : reachable lg -> reachable (With lg keyvals)
| reach_WithCallSkip lg skip : reachable lg -> reachable (WithCallSkip lg skip).

End probe.

(** Numbers that order the levels of zap as zap does, from debug up to
    fatal: a sample for the order that the properties of [probe.Log]
    assume. *)
Definition sample_rank (z : probe.zap_Level) : Z :=
  match z with
  | probe.zap_DebugLevel => -1
  | probe.zap_InfoLevel => 0
  | probe.zap_WarnLevel => 1
  | probe.zap_ErrorLevel => 2
  | probe.zap_FatalLevel => 5
  end.

(** ** Sample clusters *)

(** One topic, [orders], with partition 0 on three brokers and partition 1
    on two. *)
Definition orders_cluster : Client := {|
  Topics := Ok ["orders"];
  Partitions := fun topic =>
    if String.eqb topic "orders" then Ok [0; 1] else Err "unknown topic or partition";
  Replicas := fun topic partition =>
    if String.eqb topic "orders" then
      if partition =? 0 then Ok [1; 2; 3]
      else if partition =? 1 then Ok [1; 2]
      else Err "unknown topic or partition"
    else Err "unknown topic or partition"
|}.

(** One topic, [orders], whose only partition, 0, has the given replicas. *)
Definition one_partition_cluster (replicas : result (list Z)) : Client := {|
  Topics := Ok ["orders"];
  Partitions := fun topic =>
    if String.eqb topic "orders" then Ok [0] else Err "unknown topic or partition";
  Replicas := fun topic partition =>
    if (String.eqb topic "orders" && (partition =? 0))%bool then replicas
    else Err "unknown topic or partition"
|}.

(** A broker without any topic. *)
Definition empty_cluster : Client := {|
  Topics := Ok [];
  Partitions := fun _ => Err "unknown topic or partition";
  Replicas := fun _ _ => Err "unknown topic or partition"
|}.

Definition command_line (level : string) (topics : string) (replicaLevel : Z)
    : CommandLine :=
  {| arg_logLevel := Some level; arg_broker := None;
     arg_topics := Some topics; arg_replicaLevel := Some replicaLevel |}.

Definition no_arguments : CommandLine :=
  {| arg_logLevel := None; arg_broker := None;
     arg_topics := None; arg_replicaLevel := None |}.

(** * Properties *)

(** ** Sequencing *)

Lemma result_of_bind {A B} (m : proc A) (k : A -> proc B) :
  result_of (bind m k) =
  match result_of m with
  | Return a => result_of (k a)
  | Exit code => Exit code
  end.
Proof.
  destruct m as [tr [a | code]]; simpl; [| reflexivity].
  destruct (k a); reflexivity.
Qed.

Lemma trace_bind {A B} (m : proc A) (k : A -> proc B) :
  trace (bind m k) =
  trace m ++ match result_of m with
             | Return a => trace (k a)
             | Exit _ => []
             end.
Proof.
  destruct m as [tr [a | code]]; simpl.
  - destruct (k a); reflexivity.
  - symmetry; apply app_nil_r.
Qed.

Lemma proc_eq {A} (p q : proc A) :
  trace p = trace q -> result_of p = result_of q -> p = q.
Proof. destruct p, q; simpl; congruence. Qed.

Lemma result_of_Log log lvl fields msg :
  result_of (Log log lvl fields msg) = Return tt.
Proof. unfold Log. destruct (logrus.IsLevelEnabled log lvl); reflexivity. Qed.

Lemma result_of_Fatal {A} log fields msg :
  result_of (@Fatal A log fields msg) = Exit 1.
Proof. unfold Fatal. rewrite result_of_bind, result_of_Log. reflexivity. Qed.

Lemma trace_Fatal {A} log fields msg :
  trace (@Fatal A log fields msg) = trace (Log log logrus.FatalLevel fields msg).
Proof.
  unfold Fatal. rewrite trace_bind, result_of_Log. simpl. apply app_nil_r.
Qed.

Lemma trace_Log_enabled log lvl fields msg :
  logrus.IsLevelEnabled log lvl = true ->
  trace (Log log lvl fields msg) =
  [Stdout {| logrus.Data := fields; logrus.Level_of := lvl; logrus.Message := msg |}].
Proof. intros H. unfold Log. rewrite H. reflexivity. Qed.

Lemma queries_Log log lvl fields msg :
  queries (trace (Log log lvl fields msg)) = [].
Proof. unfold Log. destruct (logrus.IsLevelEnabled log lvl); reflexivity. Qed.

Lemma queries_app tr tr' : queries (tr ++ tr') = queries tr ++ queries tr'.
Proof. apply List.filter_app. Qed.

Lemma stdout_app tr tr' : stdout (tr ++ tr') = stdout tr ++ stdout tr'.
Proof. apply omap_app. Qed.

(** Every level but panic lets fatal entries through. *)
Lemma fatal_enabled log :
  logrus.level log <> logrus.PanicLevel ->
  logrus.IsLevelEnabled log logrus.FatalLevel = true.
Proof. destruct log as [[]]; simpl; intros H; congruence || reflexivity. Qed.

(** ** The loop body (lines 83-99) *)

Lemma check_partition_Ok log level client topic partition replicas :
  Replicas client topic partition = Ok replicas ->
  check_partition log level client topic partition =
  (call (Call_Replicas topic partition) (Ok replicas) ;;
   Debug log ∅
     (Sprint [OString "found topic"; OString "topic"; OString topic;
              OString "partition"; OInt partition;
              OString "replica"; OInts replicas]) ;;
   if not_fully_replicated level replicas
   then Fatal log
          {[ "topic" := logrus.VString topic; "partition" := logrus.VInt partition ]}
          ("topics " +:+ topic +:+ ":" +:+ fmt_d partition +:+ " is not fully replicated")
   else ret tt).
Proof. intros H. unfold check_partition. rewrite H. reflexivity. Qed.

Lemma result_of_check_partition_Ok log level client topic partition replicas :
  Replicas client topic partition = Ok replicas ->
  result_of (check_partition log level client topic partition) =
  if not_fully_replicated level replicas then Exit 1 else Return tt.
Proof.
  intros H. rewrite (check_partition_Ok _ _ _ _ _ _ H).
  rewrite result_of_bind. simpl.
  rewrite result_of_bind. unfold Debug. rewrite result_of_Log.
  destruct (not_fully_replicated level replicas); [apply result_of_Fatal | reflexivity].
Qed.

Lemma not_fully_replicated_true level replicas :
  not_fully_replicated level replicas = true <->
  0 < level /\ Z.of_nat (length replicas) <> level.
Proof.
  unfold not_fully_replicated.
  rewrite andb_true_iff, negb_true_iff, Z.ltb_lt, Z.eqb_neq. reflexivity.
Qed.

Lemma not_fully_replicated_false level replicas :
  not_fully_replicated level replicas = false <->
  level <= 0 \/ Z.of_nat (length replicas) = level.
Proof.
  unfold not_fully_replicated.
  rewrite andb_false_iff, negb_false_iff, Z.ltb_ge, Z.eqb_eq. reflexivity.
Qed.

(** C1.  With a replication level above zero, a partition whose replicas
    are listed passes the loop body exactly when the number of replicas
    equals the level.  With any other number, fewer or more, the body
    leaves the process with status 1 through the report
    [topics <topic>:<partition> is not fully replicated]. *)
Theorem strict_replication_level log level client topic partition replicas :
  0 < level ->
  Replicas client topic partition = Ok replicas ->
  (result_of (check_partition log level client topic partition) = Return tt
   <-> Z.of_nat (length replicas) = level)
  /\ (Z.of_nat (length replicas) <> level ->
      check_partition log level client topic partition =
      (call (Call_Replicas topic partition) (Ok replicas) ;;
       Debug log ∅
         (Sprint [OString "found topic"; OString "topic"; OString topic;
                  OString "partition"; OInt partition;
                  OString "replica"; OInts replicas]) ;;
       Fatal log
         {[ "topic" := logrus.VString topic; "partition" := logrus.VInt partition ]}
         ("topics " +:+ topic +:+ ":" +:+ fmt_d partition +:+ " is not fully replicated"))
      /\ result_of (check_partition log level client topic partition) = Exit 1).
Proof.
  intros Hlevel Hreplicas. split.
  - rewrite (result_of_check_partition_Ok _ _ _ _ _ _ Hreplicas).
    destruct (not_fully_replicated level replicas) eqn:E.
    + apply not_fully_replicated_true in E. split; [discriminate | tauto].
    + apply not_fully_replicated_false in E. split; [lia | reflexivity].
  - intros Hne.
    assert (E : not_fully_replicated level replicas = true)
      by (apply not_fully_replicated_true; auto).
    rewrite (result_of_check_partition_Ok _ _ _ _ _ _ Hreplicas).
    rewrite (check_partition_Ok _ _ _ _ _ _ Hreplicas), E. auto.
Qed.

Lemma strict_replication_level_witness :
  (result_of (check_partition {| logrus.level := logrus.WarnLevel |} 3
                orders_cluster "orders" 0) = Return tt
   <-> Z.of_nat (length [1; 2; 3]) = 3)
  /\ result_of (check_partition {| logrus.level := logrus.WarnLevel |} 3
                  orders_cluster "orders" 1) = Exit 1.
Proof.
  split.
  - apply (strict_replication_level {| logrus.level := logrus.WarnLevel |} 3
             orders_cluster "orders" 0 [1; 2; 3]); [lia | reflexivity].
  - apply (strict_replication_level {| logrus.level := logrus.WarnLevel |} 3
             orders_cluster "orders" 1 [1; 2]); [lia | reflexivity | simpl; lia].
Defined.

(** C3.  With replication level 0, a partition whose replicas are listed
    passes the loop body whatever their number: the body lists the
    replicas, writes its debug line, and goes on. *)
Theorem level_zero_existence_only log client topic partition replicas :
  Replicas client topic partition = Ok replicas ->
  check_partition log 0 client topic partition =
  (call (Call_Replicas topic partition) (Ok replicas) ;;
   Debug log ∅
     (Sprint [OString "found topic"; OString "topic"; OString topic;
              OString "partition"; OInt partition;
              OString "replica"; OInts replicas]))
  /\ result_of (check_partition log 0 client topic partition) = Return tt.
Proof.
  intros Hreplicas. split.
  - rewrite (check_partition_Ok _ _ _ _ _ _ Hreplicas). simpl.
    unfold Debug, Log. destruct (logrus.IsLevelEnabled log logrus.DebugLevel); reflexivity.
  - rewrite (result_of_check_partition_Ok _ _ _ _ _ _ Hreplicas). reflexivity.
Qed.

Lemma level_zero_existence_only_witness :
  result_of (check_partition {| logrus.level := logrus.WarnLevel |} 0
               orders_cluster "orders" 1) = Return tt.
Proof.
  apply (level_zero_existence_only {| logrus.level := logrus.WarnLevel |}
           orders_cluster "orders" 1 [1; 2]). reflexivity.
Defined.

(** ** The topics to check (lines 57-64) *)

Lemma Split_nonempty s : Split s <> [].
Proof.
  destruct s as [| c s]; simpl; [discriminate |].
  destruct (Ascii.eqb c ","); [discriminate |].
  destruct (Split s); discriminate.
Qed.

(** Only the empty string splits into one empty name. *)
Lemma Split_unspecified s : Split s = [""] <-> s = "".
Proof.
  split; [| intros ->; reflexivity].
  destruct s as [| c s]; [reflexivity |]. simpl.
  destruct (Ascii.eqb c ",").
  - intros H. injection H as H. destruct (Split_nonempty _ H).
  - destruct (Split s); discriminate.
Qed.

Lemma sentinel_test (requested : list string) :
  (Nat.eqb (length requested) 1 && String.eqb (nth 0 requested "") "")%bool = true
  <-> requested = [""].
Proof.
  split.
  - destruct requested as [| x [| y l]]; simpl; try discriminate.
    intros H. apply String.eqb_eq in H. congruence.
  - intros ->. reflexivity.
Qed.

Lemma resolve_other log client (requested : list string) :
  requested <> [""] -> resolve log client requested = ([], Return requested).
Proof.
  intros Hne. unfold resolve.
  destruct (Nat.eqb (length requested) 1 && String.eqb (nth 0 requested "") "")%bool eqn:E.
  - apply sentinel_test in E. contradiction.
  - reflexivity.
Qed.

Lemma resolve_all_Ok log client all :
  Topics client = Ok all -> resolve log client [""] = ([Call_Topics], Return all).
Proof. intros H. unfold resolve. simpl. rewrite H. reflexivity. Qed.

Lemma resolve_all_Err log client e :
  Topics client = Err e ->
  resolve log client [""] =
  ([Call_Topics] ++ trace (Log log logrus.FatalLevel {[ "err" := logrus.VError e ]}
                             "Error Listing Topics"), Exit 1).
Proof.
  intros H. unfold resolve. simpl. rewrite H. simpl.
  unfold Fatal, Log.
  destruct (logrus.IsLevelEnabled log logrus.FatalLevel); reflexivity.
Qed.

(** C4.  The list of requested topics is returned as it is, with no call
    on the broker and nothing logged, unless it is the list of one empty
    name.  For that list the topics of the broker are returned; when the
    broker fails to list them the process leaves with status 1, its last
    log line being [Error Listing Topics] with the error. *)
Theorem resolve_verbatim_or_all log client (requested : list string) :
  (requested <> [""] -> resolve log client requested = ([], Return requested))
  /\ (forall all, Topics client = Ok all ->
        resolve log client [""] = ([Call_Topics], Return all))
  /\ (forall e, Topics client = Err e ->
        result_of (resolve log client [""]) = Exit 1
        /\ queries (trace (resolve log client [""])) = [Call_Topics]
        /\ (logrus.level log <> logrus.PanicLevel ->
            stdout (trace (resolve log client [""])) =
            [{| logrus.Data := {[ "err" := logrus.VError e ]};
                logrus.Level_of := logrus.FatalLevel;
                logrus.Message := "Error Listing Topics" |}])).
Proof.
  split; [| split].
  - apply resolve_other.
  - intros all. apply resolve_all_Ok.
  - intros e H. rewrite (resolve_all_Err log client e H).
    unfold result_of, trace; simpl. split; [reflexivity |]. split.
    + f_equal. apply queries_Log.
    + intros Hl. unfold Log. rewrite (fatal_enabled _ Hl). reflexivity.
Qed.

Lemma resolve_verbatim_or_all_witness :
  resolve {| logrus.level := logrus.WarnLevel |} orders_cluster ["orders"; ""] =
    ([], Return ["orders"; ""])
  /\ resolve {| logrus.level := logrus.WarnLevel |} orders_cluster [""] =
    ([Call_Topics], Return ["orders"]).
Proof.
  split.
  - apply (resolve_verbatim_or_all {| logrus.level := logrus.WarnLevel |}
             orders_cluster ["orders"; ""]). discriminate.
  - apply (resolve_verbatim_or_all {| logrus.level := logrus.WarnLevel |}
             orders_cluster [""]). reflexivity.
Defined.

(** The resolver of the specification and lines 57-64 agree. *)
Lemma resolve_refines log client requested :
  result_of (resolve log client requested) =
  match spec_resolve requested client with
  | Ok topics => Return topics
  | Err _ => Exit 1
  end.
Proof.
  destruct (decide (requested = [""])) as [-> | Hne].
  - simpl. destruct (Topics client) as [all | e] eqn:E.
    + rewrite (resolve_all_Ok log client all E). reflexivity.
    + rewrite (resolve_all_Err log client e E). reflexivity.
  - rewrite (resolve_other log client requested Hne).
    destruct requested as [| [| c x] [| y l]]; try reflexivity.
    contradiction.
Qed.

(** ** Loops *)

Lemma bind_ret_l {A B} (a : A) (k : A -> proc B) : bind (ret a) k = k a.
Proof. unfold ret, bind. destruct (k a); reflexivity. Qed.

Lemma bind_assoc {A B C} (m : proc A) (k : A -> proc B) (h : B -> proc C) :
  bind (bind m k) h = bind m (fun a => bind (k a) h).
Proof.
  destruct m as [tr [a | code]]; simpl; [| reflexivity].
  destruct (k a) as [tr' [b | code]]; simpl; [| reflexivity].
  destruct (h b) as [tr'' r]. rewrite app_assoc. reflexivity.
Qed.

Lemma for_range_app {A} (l1 l2 : list A) body :
  for_range (l1 ++ l2) body = (for_range l1 body ;; for_range l2 body).
Proof.
  induction l1 as [| x l1 IH]; simpl.
  - symmetry. apply bind_ret_l.
  - rewrite IH, bind_assoc. reflexivity.
Qed.

(** A loop whose every round returns runs all its rounds. *)
Lemma for_range_pass {A} (l : list A) body :
  (forall x, x ∈ l -> result_of (body x) = Return tt) ->
  result_of (for_range l body) = Return tt
  /\ trace (for_range l body) = flat_map (fun x => trace (body x)) l.
Proof.
  induction l as [| x l IH]; intros H; simpl; [split; reflexivity |].
  destruct IH as [IHr IHt]; [intros y Hy; apply H; right; exact Hy |].
  rewrite result_of_bind, trace_bind, (H x) by left. split; congruence.
Qed.

(** A loop stops in the first round that leaves the process: the rounds
    after it do not run. *)
Lemma for_range_stop {A} (l1 l2 : list A) (y : A) body code :
  (forall x, x ∈ l1 -> result_of (body x) = Return tt) ->
  result_of (body y) = Exit code ->
  result_of (for_range (l1 ++ y :: l2) body) = Exit code
  /\ trace (for_range (l1 ++ y :: l2) body) =
     flat_map (fun x => trace (body x)) l1 ++ trace (body y).
Proof.
  intros Hpass Hstop. rewrite for_range_app.
  destruct (for_range_pass l1 body Hpass) as [Hr Ht].
  rewrite result_of_bind, trace_bind, Hr, Ht. simpl.
  rewrite result_of_bind, trace_bind, Hstop, app_nil_r. split; reflexivity.
Qed.

Lemma queries_flat_map {A} (f : A -> list event) (l : list A) :
  queries (flat_map f l) = flat_map (fun x => queries (f x)) l.
Proof.
  induction l as [| x l IH]; simpl; [reflexivity |].
  rewrite queries_app, IH. reflexivity.
Qed.

Lemma flat_map_singleton {A B} (f : A -> B) (l : list A) :
  flat_map (fun x => [f x]) l = map f l.
Proof. induction l as [| x l IH]; simpl; congruence. Qed.

(** One round over a partition asks the broker one thing: the replicas of
    that partition. *)
Lemma queries_check_partition log level client topic partition :
  queries (trace (check_partition log level client topic partition)) =
  [Call_Replicas topic partition].
Proof.
  unfold check_partition. rewrite trace_bind. simpl.
  destruct (Replicas client topic partition) as [replicas | e].
  - rewrite trace_bind, queries_app. unfold Debug at 1. rewrite queries_Log.
    unfold Debug. rewrite result_of_Log. simpl.
    destruct (not_fully_replicated level replicas); [| reflexivity].
    rewrite trace_Fatal, queries_Log. reflexivity.
  - rewrite trace_Fatal, queries_Log. reflexivity.
Qed.

(** C2.  When topic [A] comes first and one of its partitions is the
    first not to have the required number of replicas, the evaluation
    leaves the process at that partition: the calls on the broker are the
    partition list of [A] and the replicas of the partitions of [A] up to
    that one, in order, and nothing else.  No partition or replica of
    another topic is asked for, nor any later partition of [A]. *)
Theorem short_circuit log level client A rest before partition after replicas :
  0 < level ->
  Partitions client A = Ok (before ++ partition :: after) ->
  (forall q, q ∈ before ->
     exists Rq, Replicas client A q = Ok Rq /\ Z.of_nat (length Rq) = level) ->
  Replicas client A partition = Ok replicas ->
  Z.of_nat (length replicas) <> level ->
  result_of (evaluate log level client (A :: rest)) = Exit 1
  /\ queries (trace (evaluate log level client (A :: rest))) =
     Call_Partitions A :: map (Call_Replicas A) (before ++ [partition])
  /\ (forall B, B <> A ->
        (Call_Partitions B ∉ trace (evaluate log level client (A :: rest)))
        /\ forall q, Call_Replicas B q ∉ trace (evaluate log level client (A :: rest)))
  /\ (forall q, q ∉ before -> q <> partition ->
        Call_Replicas A q ∉ trace (evaluate log level client (A :: rest))).
Proof.
  intros Hlevel Hparts Hbefore Hreplicas Hne.
  assert (Hpass : forall q, q ∈ before ->
            result_of (check_partition log level client A q) = Return tt).
  { intros q Hq. destruct (Hbefore q Hq) as (Rq & HRq & Hlen).
    rewrite (result_of_check_partition_Ok _ _ _ _ _ _ HRq).
    replace (not_fully_replicated level Rq) with false; [reflexivity |].
    symmetry. apply not_fully_replicated_false. auto. }
  assert (Hstop : result_of (check_partition log level client A partition) = Exit 1).
  { rewrite (result_of_check_partition_Ok _ _ _ _ _ _ Hreplicas).
    replace (not_fully_replicated level replicas) with true; [reflexivity |].
    symmetry. apply not_fully_replicated_true. auto. }
  destruct (for_range_stop before after partition _ 1 Hpass Hstop) as [Hr Ht].
  assert (Hresult : result_of (evaluate log level client (A :: rest)) = Exit 1).
  { unfold evaluate. simpl. rewrite result_of_bind.
    unfold check_topic. rewrite result_of_bind. simpl. rewrite Hparts, Hr. reflexivity. }
  assert (Hqueries : queries (trace (evaluate log level client (A :: rest))) =
                     Call_Partitions A :: map (Call_Replicas A) (before ++ [partition])).
  { unfold evaluate. simpl. rewrite trace_bind.
    unfold check_topic. rewrite result_of_bind, trace_bind. simpl.
    rewrite Hparts, Hr, Ht, app_nil_r. f_equal.
    rewrite queries_app, queries_flat_map, queries_check_partition.
    rewrite (flat_map_ext _ (fun q => [Call_Replicas A q]))
      by (intros q; apply queries_check_partition).
    rewrite flat_map_singleton, map_app. reflexivity. }
  assert (Hin : forall ev, is_query ev = true ->
            ev ∈ trace (evaluate log level client (A :: rest)) ->
            ev = Call_Partitions A
            \/ exists q, ev = Call_Replicas A q /\ (q ∈ before \/ q = partition)).
  { intros ev Hq Hev.
    assert (Hev' : ev ∈ queries (trace (evaluate log level client (A :: rest)))).
    { apply list_elem_of_In, List.filter_In. split; [apply list_elem_of_In, Hev | exact Hq]. }
    rewrite Hqueries in Hev'. apply elem_of_cons in Hev' as [-> | Hev']; [left; reflexivity |].
    right. apply list_elem_of_fmap in Hev' as (q & -> & Hq').
    exists q. split; [reflexivity |].
    apply elem_of_app in Hq' as [Hq' | Hq']; [left; exact Hq' |].
    right. apply list_elem_of_singleton in Hq'. exact Hq'. }
  repeat split; try assumption.
  - intros Hev. apply Hin in Hev; [| reflexivity].
    destruct Hev as [Hev | (q & Hev & _)]; congruence.
  - intros q Hev. apply Hin in Hev; [| reflexivity].
    destruct Hev as [Hev | (q' & Hev & _)]; congruence.
  - intros q Hnot Hneq Hev. apply Hin in Hev; [| reflexivity].
    destruct Hev as [Hev | (q' & Hev & [Hq' | Hq'])]; [discriminate | |];
      injection Hev as ->; contradiction.
Qed.

Lemma short_circuit_witness :
  result_of (evaluate {| logrus.level := logrus.WarnLevel |} 3 orders_cluster
               ["orders"; "payments"]) = Exit 1
  /\ queries (trace (evaluate {| logrus.level := logrus.WarnLevel |} 3 orders_cluster
                       ["orders"; "payments"])) =
     [Call_Partitions "orders"; Call_Replicas "orders" 0; Call_Replicas "orders" 1].
Proof.
  assert (H := short_circuit {| logrus.level := logrus.WarnLevel |} 3 orders_cluster
                 "orders" ["payments"] [0] 1 [] [1; 2]).
  simpl in H. split; apply H; try reflexivity; try lia.
  - intros q Hq. apply list_elem_of_singleton in Hq as ->.
    exists [1; 2; 3]. split; reflexivity.
  - intros q Hq. apply list_elem_of_singleton in Hq as ->.
    exists [1; 2; 3]. split; reflexivity.
Defined.

(** ** The run and the verdict of the specification *)

(** Line 94 is the policy of section 4.2 at the same level when the level
    is not negative, and at level 0 when it is. *)
Lemma policy_agrees level replicas :
  spec_policy (Z.max 0 level) replicas = negb (not_fully_replicated level replicas).
Proof.
  unfold spec_policy, not_fully_replicated.
  destruct (Z.ltb_spec 0 level) as [Hpos | Hneg].
  - rewrite Z.max_r by lia.
    destruct (Z.eqb_spec level 0) as [-> | Hne]; [lia |].
    simpl. rewrite negb_involutive. reflexivity.
  - rewrite Z.max_l by lia. reflexivity.
Qed.

Lemma last_stdout_Fatal {A} log fields msg (tr : list event) :
  logrus.level log <> logrus.PanicLevel ->
  last (stdout (tr ++ trace (@Fatal A log fields msg))) =
  Some {| logrus.Data := fields; logrus.Level_of := logrus.FatalLevel;
          logrus.Message := msg |}.
Proof.
  intros H. rewrite trace_Fatal, (trace_Log_enabled _ _ _ _ (fatal_enabled _ H)).
  rewrite stdout_app. simpl. apply last_snoc.
Qed.

Lemma last_stdout_app tr tr' verdict :
  is_Healthy verdict = false ->
  last (stdout tr') = fatal_entry verdict ->
  last (stdout (tr ++ tr')) = fatal_entry verdict.
Proof.
  intros Hv H. rewrite stdout_app, last_app, H.
  destruct verdict as [| t p e a | [|  |]]; try reflexivity. discriminate.
Qed.

Section Refinement.

Variable log : logrus.Logger.
Variable level : Z.
Variable client : Client.

(** The loop over the partitions of one topic. *)
Lemma partitions_refine topic partitions :
  let verdict := spec_evaluate_partitions topic partitions (Z.max 0 level) client in
  let run := for_range partitions (check_partition log level client topic) in
  result_of run = (if is_Healthy verdict then Return tt else Exit 1)
  /\ (logrus.level log <> logrus.PanicLevel -> is_Healthy verdict = false ->
      last (stdout (trace run)) = fatal_entry verdict).
Proof.
  induction partitions as [| partition rest IH]; simpl; [split; [reflexivity | discriminate] |].
  rewrite result_of_bind, trace_bind.
  destruct (Replicas client topic partition) as [replicas | e] eqn:E.
  - rewrite (result_of_check_partition_Ok _ _ _ _ _ _ E).
    rewrite policy_agrees.
    destruct (not_fully_replicated level replicas) eqn:N; simpl.
    + split; [reflexivity |]. intros Hl _. rewrite app_nil_r.
      rewrite (check_partition_Ok _ _ _ _ _ _ E), N.
      rewrite trace_bind. simpl. rewrite trace_bind. unfold Debug at 2.
      rewrite result_of_Log. apply last_stdout_Fatal, Hl.
    + destruct IH as [IHr IHt]. split; [exact IHr |].
      intros Hl Hv. apply last_stdout_app; auto.
  - unfold check_partition. rewrite result_of_bind, trace_bind. simpl. rewrite E.
    rewrite result_of_Fatal. split; [reflexivity |]. intros Hl _.
    rewrite app_nil_r.
    apply (last_stdout_Fatal log _ _ [Call_Replicas topic partition] Hl).
Qed.

(** The loop over the topics. *)
Lemma evaluate_refines topics :
  let verdict := spec_evaluate topics (Z.max 0 level) client in
  let run := evaluate log level client topics in
  result_of run = (if is_Healthy verdict then Return tt else Exit 1)
  /\ (logrus.level log <> logrus.PanicLevel -> is_Healthy verdict = false ->
      last (stdout (trace run)) = fatal_entry verdict).
Proof.
  unfold evaluate.
  induction topics as [| topic rest IH]; simpl; [split; [reflexivity | discriminate] |].
  rewrite result_of_bind, trace_bind. unfold check_topic.
  rewrite result_of_bind, trace_bind. simpl.
  destruct (Partitions client topic) as [partitions | e] eqn:E.
  - destruct (partitions_refine topic partitions) as [Hr Ht]. simpl in Hr, Ht.
    rewrite Hr.
    destruct (spec_evaluate_partitions topic partitions (Z.max 0 level) client) as [| t p ex ac | cause] eqn:V;
      simpl in *.
    + destruct IH as [IHr IHt]. split; [exact IHr |].
      intros Hl Hv. apply last_stdout_app; auto.
    + split; [reflexivity |]. intros Hl _. rewrite app_nil_r.
      apply Ht; auto.
    + split; [reflexivity |]. intros Hl _. rewrite app_nil_r.
      apply Ht; auto.
  - rewrite result_of_Fatal. split; [reflexivity |]. intros Hl _.
    rewrite app_nil_r.
    apply (last_stdout_Fatal log _ _ [Call_Partitions topic] Hl).
Qed.

End Refinement.

(** ** The whole run (lines 20-102) *)

Lemma result_of_defer {A} deferred (body : proc A) :
  result_of (defer deferred body) = result_of body.
Proof. destruct body as [tr [a | code]]; reflexivity. Qed.

Lemma trace_defer {A} deferred (body : proc A) :
  trace (defer deferred body) =
  trace body ++ match result_of body with
                | Return _ => trace deferred
                | Exit _ => []
                end.
Proof.
  destruct body as [tr [a | code]]; simpl; [reflexivity |].
  symmetry; apply app_nil_r.
Qed.

Section Run.

Variable version : string.
Variable sarama_NewClient : list string -> result Client.
Variable cl : CommandLine.
Variable client : Client.
Hypothesis connected : sarama_NewClient (brokersList cl) = Ok client.

Lemma main_connected :
  main version sarama_NewClient cl =
  (Info (new_logger cl)
     {[ "version" := logrus.VString version; "brokers" := logrus.VString (broker cl) ]}
     "starting app" ;;
   call (Call_NewClient (brokersList cl)) (Ok client) ;;
   defer (emit Call_Close) (checks (new_logger cl) cl client)).
Proof. unfold main. rewrite connected. reflexivity. Qed.

Lemma result_of_main : result_of (main version sarama_NewClient cl) = result_of (checks (new_logger cl) cl client).
Proof.
  rewrite main_connected, result_of_bind. unfold Info. rewrite result_of_Log.
  rewrite result_of_bind. simpl. apply result_of_defer.
Qed.

Lemma stdout_main_failing code :
  result_of (checks (new_logger cl) cl client) = Exit code ->
  last (stdout (trace (main version sarama_NewClient cl))) =
  match last (stdout (trace (checks (new_logger cl) cl client))) with
  | Some e => Some e
  | None => last (stdout (trace (Info (new_logger cl)
              {[ "version" := logrus.VString version;
                 "brokers" := logrus.VString (broker cl) ]} "starting app")))
  end.
Proof.
  intros H. rewrite main_connected, trace_bind. unfold Info at 2. rewrite result_of_Log.
  rewrite trace_bind. simpl. rewrite trace_defer, H, app_nil_r.
  rewrite stdout_app. simpl. apply last_app.
Qed.

(** The run against the verdict of the specification (taken at level 0
    when the level asked for is negative): the process returns from
    [main] on [Healthy] and leaves with status 1 on any other verdict,
    the last line of its log being the entry of the [Fatal] call behind
    that verdict. *)
Lemma main_refines :
  let verdict := spec_run (topicsList cl) (Z.max 0 (replicaLevel cl)) client in
  result_of (main version sarama_NewClient cl) =
    (if is_Healthy verdict then Return tt else Exit 1)
  /\ (myLogLevel cl <> logrus.PanicLevel -> is_Healthy verdict = false ->
      failure_report (main version sarama_NewClient cl) = fatal_entry verdict).
Proof.
  simpl. unfold failure_report.
  assert (Hchecks :
    result_of (checks (new_logger cl) cl client) =
      (if is_Healthy (spec_run (topicsList cl) (Z.max 0 (replicaLevel cl)) client)
       then Return tt else Exit 1)
    /\ (myLogLevel cl <> logrus.PanicLevel ->
        is_Healthy (spec_run (topicsList cl) (Z.max 0 (replicaLevel cl)) client) = false ->
        last (stdout (trace (checks (new_logger cl) cl client))) =
        fatal_entry (spec_run (topicsList cl) (Z.max 0 (replicaLevel cl)) client))).
  { unfold checks, spec_run. set (log := new_logger cl). rewrite result_of_bind, trace_bind.
    destruct (decide (topicsList cl = [""])) as [-> | Hne].
    - simpl spec_resolve. destruct (Topics client) as [all | e] eqn:E.
      + rewrite (resolve_all_Ok log client all E). cbn [result_of trace fst snd].
        rewrite result_of_bind, trace_bind. unfold Debug. rewrite result_of_Log.
        destruct (evaluate_refines log (replicaLevel cl) client all)
          as [Hr Ht]. simpl in Hr, Ht.
        split; [exact Hr |]. intros Hl Hv.
        apply (last_stdout_app [Call_Topics]); [exact Hv |].
        apply last_stdout_app; auto.
      + rewrite (resolve_all_Err log client e E). simpl.
        split; [reflexivity |]. intros Hl _. rewrite app_nil_r.
        unfold Log. rewrite (fatal_enabled log Hl). reflexivity.
    - rewrite (resolve_other log client _ Hne). cbn [result_of trace fst snd].
      replace (spec_resolve (topicsList cl) client) with (@Ok (list string) (topicsList cl)).
      + rewrite result_of_bind, trace_bind. unfold Debug. rewrite result_of_Log.
        destruct (evaluate_refines log (replicaLevel cl) client (topicsList cl))
          as [Hr Ht]. simpl in Hr, Ht.
        split; [exact Hr |]. intros Hl Hv.
        do 2 (apply last_stdout_app; [exact Hv |]). auto.
      + destruct (topicsList cl) as [| [| c x] [| y l]]; try reflexivity.
        contradiction. }
  destruct Hchecks as [Hr Ht]. rewrite result_of_main. split; [exact Hr |].
  intros Hl Hv. rewrite Hv in Hr. rewrite (stdout_main_failing 1 Hr).
  rewrite (Ht Hl Hv).
  destruct (spec_run (topicsList cl) (Z.max 0 (replicaLevel cl)) client) as [| t p e a | [| |]];
    try reflexivity. discriminate.
Qed.

End Run.

Lemma connection_failure version sarama_NewClient cl e :
  sarama_NewClient (brokersList cl) = Err e ->
  result_of (main version sarama_NewClient cl) = Exit 1.
Proof.
  intros H. unfold main. rewrite result_of_bind. unfold Info. rewrite result_of_Log.
  rewrite result_of_bind. simpl. rewrite H. apply result_of_Fatal.
Qed.

(** C7.  With a replication level that is not negative, the exit status
    is 0 exactly when the broker is reached and the verdict of the run is
    [Healthy]; on an [Unhealthy] verdict and on an [EvaluationError] the
    exit status is 1. *)
Theorem exit_status_tells_health version sarama_NewClient cl :
  0 <= replicaLevel cl ->
  (exit_status (main version sarama_NewClient cl) = 0
   <-> exists client,
         sarama_NewClient (brokersList cl) = Ok client
         /\ spec_run (topicsList cl) (replicaLevel cl) client = Healthy)
  /\ (forall client topic partition expected actual,
        sarama_NewClient (brokersList cl) = Ok client ->
        spec_run (topicsList cl) (replicaLevel cl) client =
          Unhealthy topic partition expected actual ->
        exit_status (main version sarama_NewClient cl) = 1)
  /\ (forall client cause,
        sarama_NewClient (brokersList cl) = Ok client ->
        spec_run (topicsList cl) (replicaLevel cl) client = EvaluationError cause ->
        exit_status (main version sarama_NewClient cl) = 1).
Proof.
  intros Hlevel. unfold exit_status. split; [| split].
  - destruct (sarama_NewClient (brokersList cl)) as [client | e] eqn:E.
    + destruct (main_refines version sarama_NewClient cl client E) as [Hr _].
      simpl in Hr. rewrite Z.max_r in Hr by exact Hlevel. rewrite Hr. split.
      * intros H. exists client. split; [reflexivity |].
        destruct (spec_run (topicsList cl) (replicaLevel cl) client);
          [reflexivity | discriminate | discriminate].
      * intros (client' & Hc & Hv). injection Hc as <-. rewrite Hv. reflexivity.
    + rewrite (connection_failure _ _ _ _ E). split; [discriminate |].
      intros (client' & Hc & _). discriminate.
  - intros client topic partition expected actual E Hv.
    destruct (main_refines version sarama_NewClient cl client E) as [Hr _].
    simpl in Hr. rewrite Z.max_r in Hr by exact Hlevel. rewrite Hr, Hv. reflexivity.
  - intros client cause E Hv.
    destruct (main_refines version sarama_NewClient cl client E) as [Hr _].
    simpl in Hr. rewrite Z.max_r in Hr by exact Hlevel. rewrite Hr, Hv. reflexivity.
Qed.

Lemma exit_status_tells_health_witness :
  exit_status (main "no version set" (fun _ => Ok orders_cluster)
                 (command_line "warn" "orders" 3)) = 1
  /\ (exit_status (main "no version set" (fun _ => Ok orders_cluster)
                     (command_line "warn" "" 0)) = 0
      <-> exists client,
            (fun _ : list string => Ok orders_cluster)
              (brokersList (command_line "warn" "" 0)) = Ok client
            /\ spec_run (topicsList (command_line "warn" "" 0))
                 (replicaLevel (command_line "warn" "" 0)) client = Healthy).
Proof.
  split.
  - apply (exit_status_tells_health "no version set" (fun _ => Ok orders_cluster)
             (command_line "warn" "orders" 3) ltac:(vm_compute; discriminate))
      with (client := orders_cluster) (topic := "orders") (partition := 1)
           (expected := 3) (actual := 2); reflexivity.
  - apply (exit_status_tells_health "no version set" (fun _ => Ok orders_cluster)
             (command_line "warn" "" 0)). vm_compute. discriminate.
Defined.

(** With a negative level the exit status is that of a run at level 0. *)
Lemma exit_status_negative_level version sarama_NewClient cl client :
  sarama_NewClient (brokersList cl) = Ok client ->
  replicaLevel cl < 0 ->
  exit_status (main version sarama_NewClient cl) =
  if is_Healthy (spec_run (topicsList cl) 0 client) then 0 else 1.
Proof.
  intros E Hlevel.
  destruct (main_refines version sarama_NewClient cl client E) as [Hr _].
  simpl in Hr. rewrite Z.max_l in Hr by lia. unfold exit_status. rewrite Hr.
  destruct (is_Healthy (spec_run (topicsList cl) 0 client)); reflexivity.
Qed.

(** ** What the failure report says *)

(** C5, as claimed, does not hold: neither the expected nor the actual
    number of replicas can be read off the failure report.  Two runs on
    the same partition with two replicas, one asking for three and one for
    five, end with the same report; so do two runs asking for three, one
    finding two replicas and one finding four. *)
Lemma failure_report_lacks_counts :
  ~ report_describes (fun expected _ => expected)
  /\ ~ report_describes (fun _ actual => actual).
Proof.
  split; intros [read Hread].
  - assert (H3 := Hread "no version set"
                    (fun _ => Ok (one_partition_cluster (Ok [1; 2])))
                    (command_line "warn" "orders" 3) _ "orders" 0 3 2 _
                    eq_refl eq_refl eq_refl).
    assert (H5 := Hread "no version set"
                    (fun _ => Ok (one_partition_cluster (Ok [1; 2])))
                    (command_line "warn" "orders" 5) _ "orders" 0 5 2 _
                    eq_refl eq_refl eq_refl).
    simpl in H3, H5. congruence.
  - assert (H2 := Hread "no version set"
                    (fun _ => Ok (one_partition_cluster (Ok [1; 2])))
                    (command_line "warn" "orders" 3) _ "orders" 0 3 2 _
                    eq_refl eq_refl eq_refl).
    assert (H4 := Hread "no version set"
                    (fun _ => Ok (one_partition_cluster (Ok [1; 2; 3; 4])))
                    (command_line "warn" "orders" 3) _ "orders" 0 3 4 _
                    eq_refl eq_refl eq_refl).
    simpl in H2, H4. congruence.
Qed.

(** C5, amended.  On an [Unhealthy] verdict (replication level not
    negative) the process leaves with status 1 and, unless the level of
    the logger is panic, the last line of its log is a fatal entry whose
    fields are the failing topic and partition and whose message is
    [topics <topic>:<partition> is not fully replicated].  The entry is
    the same whatever the expected and actual numbers of replicas. *)
Theorem unhealthy_report version sarama_NewClient cl client
    topic partition expected actual :
  sarama_NewClient (brokersList cl) = Ok client ->
  0 <= replicaLevel cl ->
  myLogLevel cl <> logrus.PanicLevel ->
  spec_run (topicsList cl) (replicaLevel cl) client =
    Unhealthy topic partition expected actual ->
  exit_status (main version sarama_NewClient cl) = 1
  /\ failure_report (main version sarama_NewClient cl) =
     Some {| logrus.Data :=
               {[ "topic" := logrus.VString topic; "partition" := logrus.VInt partition ]};
             logrus.Level_of := logrus.FatalLevel;
             logrus.Message :=
               "topics " +:+ topic +:+ ":" +:+ fmt_d partition
               +:+ " is not fully replicated" |}.
Proof.
  intros E Hlevel Hl Hv.
  destruct (main_refines version sarama_NewClient cl client E) as [Hr Ht].
  simpl in Hr, Ht. rewrite Z.max_r in Hr, Ht by exact Hlevel.
  rewrite Hv in Hr, Ht. split.
  - unfold exit_status. rewrite Hr. reflexivity.
  - apply Ht; [exact Hl | reflexivity].
Qed.

Lemma unhealthy_report_witness :
  exit_status (main "no version set" (fun _ => Ok orders_cluster)
                 (command_line "warn" "orders" 3)) = 1
  /\ failure_report (main "no version set" (fun _ => Ok orders_cluster)
                       (command_line "warn" "orders" 3)) =
     Some {| logrus.Data :=
               {[ "topic" := logrus.VString "orders"; "partition" := logrus.VInt 1 ]};
             logrus.Level_of := logrus.FatalLevel;
             logrus.Message := "topics orders:1 is not fully replicated" |}.
Proof.
  apply (unhealthy_report "no version set" (fun _ => Ok orders_cluster)
           (command_line "warn" "orders" 3) orders_cluster "orders" 1 3 2).
  - reflexivity.
  - vm_compute. discriminate.
  - discriminate.
  - reflexivity.
Defined.

(** ** Failing queries (lines 74-89) *)

(** The partitions of a topic cannot be listed: the report carries the
    error and the topic. *)
Lemma partition_error_report log level client topic e :
  Partitions client topic = Err e ->
  check_topic log level client topic =
  ([Call_Partitions topic] ++
   trace (Log log logrus.FatalLevel
            {[ "err" := logrus.VError e; "topic" := logrus.VString topic ]}
            "Error Listing Partitions"),
   Exit 1).
Proof.
  intros H. apply proc_eq.
  - unfold check_topic. rewrite trace_bind. simpl. rewrite H, trace_Fatal. reflexivity.
  - unfold check_topic. rewrite result_of_bind. simpl. rewrite H. apply result_of_Fatal.
Qed.

(** C6.  The replicas of a partition cannot be listed: the loop body
    leaves the process at once with status 1, and the report carries the
    topic and the partition.  It does not carry the error: the run is the
    same whatever the error was. *)
Theorem replica_error_report log level client topic partition e :
  Replicas client topic partition = Err e ->
  check_partition log level client topic partition =
  ([Call_Replicas topic partition] ++
   trace (Log log logrus.FatalLevel
            {[ "topic" := logrus.VString topic; "partition" := logrus.VInt partition ]}
            "Error listing partitions"),
   Exit 1).
Proof.
  intros H. apply proc_eq.
  - unfold check_partition. rewrite trace_bind. simpl. rewrite H, trace_Fatal. reflexivity.
  - unfold check_partition. rewrite result_of_bind. simpl. rewrite H. apply result_of_Fatal.
Qed.

Lemma replica_error_report_witness :
  check_partition {| logrus.level := logrus.WarnLevel |} 2
    (one_partition_cluster (Err "EOF")) "orders" 0 =
  ([Call_Replicas "orders" 0;
    Stdout {| logrus.Data :=
                {[ "topic" := logrus.VString "orders"; "partition" := logrus.VInt 0 ]};
              logrus.Level_of := logrus.FatalLevel;
              logrus.Message := "Error listing partitions" |}],
   Exit 1).
Proof.
  apply (replica_error_report {| logrus.level := logrus.WarnLevel |} 2
           (one_partition_cluster (Err "EOF")) "orders" 0 "EOF").
  reflexivity.
Defined.

(** Two runs that differ only in the error given for the replicas of
    [orders], partition 0, cannot be told apart, even at debug level. *)
Example replica_error_cause_lost :
  main "no version set" (fun _ => Ok (one_partition_cluster (Err "EOF")))
    (command_line "debug" "orders" 2) =
  main "no version set"
    (fun _ => Ok (one_partition_cluster (Err "kafka: broker not connected")))
    (command_line "debug" "orders" 2).
Proof. reflexivity. Qed.

(** The same error on the partition list shows in the report. *)
Example partition_error_cause_kept :
  failure_report
    (main "no version set" (fun _ => Ok (one_partition_cluster (Err "EOF")))
       (command_line "warn" "missing" 2)) =
  Some {| logrus.Data :=
            {[ "err" := logrus.VError "unknown topic or partition";
               "topic" := logrus.VString "missing" ]};
          logrus.Level_of := logrus.FatalLevel;
          logrus.Message := "Error Listing Partitions" |}.
Proof. reflexivity. Qed.

(** ** Closing the client (line 53) *)

Lemma closes_app tr tr' : closes (tr ++ tr') = (closes tr + closes tr')%nat.
Proof. unfold closes. rewrite List.filter_app. apply length_app. Qed.

Lemma closes_Log log lvl fields msg : closes (trace (Log log lvl fields msg)) = 0%nat.
Proof. unfold Log. destruct (logrus.IsLevelEnabled log lvl); reflexivity. Qed.

Lemma keeps_open_bind {A B} (m : proc A) (k : A -> proc B) :
  keeps_open m -> (forall a, keeps_open (k a)) -> keeps_open (bind m k).
Proof.
  intros [Hm Hm'] Hk. unfold keeps_open.
  rewrite trace_bind, result_of_bind, closes_app, Hm.
  destruct (result_of m) as [a | code].
  - exact (Hk a).
  - split; [reflexivity |].
    intros c Hc. injection Hc as <-. apply Hm'. reflexivity.
Qed.

Lemma keeps_open_Log log lvl fields msg : keeps_open (Log log lvl fields msg).
Proof.
  split; [apply closes_Log |]. rewrite result_of_Log. discriminate.
Qed.

Lemma keeps_open_Fatal {A} log fields msg : keeps_open (@Fatal A log fields msg).
Proof.
  split.
  - rewrite trace_Fatal. apply closes_Log.
  - rewrite result_of_Fatal. congruence.
Qed.

Lemma keeps_open_ret {A} (a : A) : keeps_open (ret a).
Proof. split; [reflexivity | discriminate]. Qed.

Lemma keeps_open_for_range {A} (l : list A) body :
  (forall x, keeps_open (body x)) -> keeps_open (for_range l body).
Proof.
  intros H. induction l as [| x l IH]; simpl.
  - apply keeps_open_ret.
  - apply keeps_open_bind; auto.
Qed.

Lemma keeps_open_check_partition log level client topic partition :
  keeps_open (check_partition log level client topic partition).
Proof.
  unfold check_partition. apply keeps_open_bind.
  - split; [reflexivity | discriminate].
  - intros [replicas | e]; [| apply keeps_open_Fatal].
    apply keeps_open_bind; [apply keeps_open_Log |]. intros _.
    destruct (not_fully_replicated level replicas);
      [apply keeps_open_Fatal | apply keeps_open_ret].
Qed.

Lemma keeps_open_evaluate log level client topics :
  keeps_open (evaluate log level client topics).
Proof.
  apply keeps_open_for_range. intros topic. unfold check_topic.
  apply keeps_open_bind.
  - split; [reflexivity | discriminate].
  - intros [partitions | e]; [| apply keeps_open_Fatal].
    apply keeps_open_for_range. intros partition. apply keeps_open_check_partition.
Qed.

Lemma keeps_open_resolve log client requested :
  keeps_open (resolve log client requested).
Proof.
  unfold resolve.
  destruct (Nat.eqb (length requested) 1 && String.eqb (nth 0 requested "") "")%bool;
    [| apply keeps_open_ret].
  apply keeps_open_bind.
  - split; [reflexivity | discriminate].
  - intros [all | e]; [apply keeps_open_ret | apply keeps_open_Fatal].
Qed.

Section Close.

Variable version : string.
Variable sarama_NewClient : list string -> result Client.
Variable cl : CommandLine.
Variable client : Client.
Hypothesis connected : sarama_NewClient (brokersList cl) = Ok client.

(** What [main] does to the client, by the way it ends. *)
Lemma closes_main :
  match result_of (main version sarama_NewClient cl) with
  | Return _ =>
      closes (trace (main version sarama_NewClient cl)) = 1%nat
      /\ last (trace (main version sarama_NewClient cl)) = Some Call_Close
  | Exit code =>
      code = 1 /\ closes (trace (main version sarama_NewClient cl)) = 0%nat
  end.
Proof.
  rewrite (main_connected version sarama_NewClient cl client connected).
  set (log := {| logrus.level := myLogLevel cl |}).
  match goal with |- context [defer _ ?b] => set (checks := b) end.
  assert (Hk : keeps_open checks).
  { subst checks. apply keeps_open_bind; [apply keeps_open_resolve |].
    intros topics. apply keeps_open_bind; [apply keeps_open_Log |].
    intros _. apply keeps_open_evaluate. }
  destruct Hk as [Hc He].
  rewrite result_of_bind, trace_bind. unfold Info. rewrite result_of_Log.
  rewrite result_of_bind, trace_bind. simpl result_of at 1. simpl result_of at 2.
  cbv iota beta. rewrite result_of_defer, trace_defer.
  destruct (result_of checks) as [[] | code] eqn:R.
  - split.
    + cbn [result_of call snd trace fst emit].
      rewrite !closes_app, closes_Log, Hc. reflexivity.
    + cbn [result_of call snd trace fst emit]. rewrite !app_assoc. apply last_snoc.
  - split; [apply He; reflexivity |].
    cbn [result_of call snd trace fst emit].
    rewrite app_nil_r, !closes_app, closes_Log, Hc. reflexivity.
Qed.

End Close.

(** A run that returns from [main] closes the client once, as its last
    act. *)
Lemma close_once_on_return version sarama_NewClient cl client :
  sarama_NewClient (brokersList cl) = Ok client ->
  exit_status (main version sarama_NewClient cl) = 0 ->
  closes (trace (main version sarama_NewClient cl)) = 1%nat
  /\ last (trace (main version sarama_NewClient cl)) = Some Call_Close.
Proof.
  intros E H. assert (Hm := closes_main version sarama_NewClient cl client E).
  unfold exit_status in H.
  destruct (result_of (main version sarama_NewClient cl)); [exact Hm |].
  destruct Hm as [-> _]. discriminate.
Qed.

(** C8.  The claim fails on the code: a run that leaves through [Fatal]
    never closes the client.  [Fatal] ends the process through [os.Exit],
    and the call deferred on line 53 does not run; only a run that
    returns from [main] closes the client. *)
Theorem fatal_skips_close version sarama_NewClient cl client :
  sarama_NewClient (brokersList cl) = Ok client ->
  exit_status (main version sarama_NewClient cl) <> 0 ->
  closes (trace (main version sarama_NewClient cl)) = 0%nat.
Proof.
  intros E H. assert (Hm := closes_main version sarama_NewClient cl client E).
  unfold exit_status in H.
  destruct (result_of (main version sarama_NewClient cl)); [contradiction |].
  apply Hm.
Qed.

Lemma fatal_skips_close_witness :
  closes (trace (main "no version set" (fun _ => Ok orders_cluster)
                   (command_line "warn" "orders" 3))) = 0%nat.
Proof.
  apply (fatal_skips_close "no version set" (fun _ => Ok orders_cluster)
           (command_line "warn" "orders" 3) orders_cluster).
  - reflexivity.
  - vm_compute. discriminate.
Defined.

(** ** The [-logLevel] flag (lines 13 and 26-30) *)

(** The defaults of lines 13-16 are those of the usage text. *)
Lemma defaults_match_usage :
  [("broker", broker no_arguments); ("logLevel", logLevel no_arguments);
   ("replicaLevel", fmt_d (replicaLevel no_arguments));
   ("topics", topics no_arguments)] = README_usage.
Proof. reflexivity. Qed.

(** C9, as claimed, does not hold: the default of [-logLevel] is not the
    string [warn]. *)
Lemma default_logLevel_is_not_warn : logLevel no_arguments <> "warn".
Proof. discriminate. Qed.

(** C9, amended.  When the flag is not supplied its value is [warning],
    the name logrus gives to its warn level, and the logger runs at the
    warn level.  Each of fatal, error, warn, info and debug names its
    level; so do warning and panic.  A value that names no level leaves
    the logger at the warn level. *)
Theorem logLevel_default_and_names :
  (forall cl, arg_logLevel cl = None ->
     logLevel cl = "warning" /\ myLogLevel cl = logrus.WarnLevel)
  /\ logrus.ParseLevel "fatal" = Ok logrus.FatalLevel
  /\ logrus.ParseLevel "error" = Ok logrus.ErrorLevel
  /\ logrus.ParseLevel "warn" = Ok logrus.WarnLevel
  /\ logrus.ParseLevel "info" = Ok logrus.InfoLevel
  /\ logrus.ParseLevel "debug" = Ok logrus.DebugLevel
  /\ logrus.ParseLevel "warning" = Ok logrus.WarnLevel
  /\ logrus.ParseLevel "panic" = Ok logrus.PanicLevel
  /\ (forall cl e, logrus.ParseLevel (logLevel cl) = Err e ->
        myLogLevel cl = logrus.WarnLevel).
Proof.
  split.
  - intros cl H. unfold myLogLevel, logLevel. rewrite H. split; reflexivity.
  - repeat split; try reflexivity.
    intros cl e H. unfold myLogLevel. rewrite H. reflexivity.
Qed.

Lemma logLevel_default_and_names_witness :
  (logLevel no_arguments = "warning" /\ myLogLevel no_arguments = logrus.WarnLevel)
  /\ myLogLevel (command_line "verbose" "" 2) = logrus.WarnLevel.
Proof.
  split.
  - apply (proj1 logLevel_default_and_names no_arguments). reflexivity.
  - apply (proj2 (proj2 (proj2 (proj2 (proj2 (proj2 (proj2 (proj2
             logLevel_default_and_names))))))))
      with (e := "not a valid logrus Level: verbose").
    reflexivity.
Defined.

(** The five names of the vendored logger, which [main.go] does not use:
    there the warn level is called [warn]. *)
Lemma probe_log_names :
  map probe_log.String
    [probe_log.FatalLevel; probe_log.ErrorLevel; probe_log.WarnLevel;
     probe_log.InfoLevel; probe_log.DebugLevel] =
  ["fatal"; "error"; "warn"; "info"; "debug"]
  /\ forall l, probe_log.Set_ (probe_log.String l) = Ok l.
Proof. split; [reflexivity | intros []; reflexivity]. Qed.

(** ** Levels that are not positive (line 94) *)

Lemma bind_ext {A B} (m : proc A) (k k' : A -> proc B) :
  (forall a, k a = k' a) -> bind m k = bind m k'.
Proof.
  intros H. destruct m as [tr [a | code]]; simpl; [| reflexivity].
  rewrite H. reflexivity.
Qed.

Lemma for_range_ext {A} (l : list A) body body' :
  (forall x, body x = body' x) -> for_range l body = for_range l body'.
Proof.
  intros H. induction l as [| x l IH]; simpl; [reflexivity |].
  rewrite H, IH. reflexivity.
Qed.

Lemma not_fully_replicated_nonpositive level replicas :
  level <= 0 -> not_fully_replicated level replicas = false.
Proof. intros H. apply not_fully_replicated_false. left. exact H. Qed.

Lemma evaluate_nonpositive log level client topics :
  level <= 0 ->
  evaluate log level client topics = evaluate log 0 client topics.
Proof.
  intros H. unfold evaluate. apply for_range_ext. intros topic.
  unfold check_topic. apply bind_ext. intros [partitions | e]; [| reflexivity].
  apply for_range_ext. intros partition.
  unfold check_partition. apply bind_ext. intros [replicas | e]; [| reflexivity].
  rewrite (not_fully_replicated_nonpositive level replicas H). reflexivity.
Qed.

Lemma stops_on_failed_query_for_range {A} client (l : list A) body :
  (forall x, stops_on_failed_query client (body x)) ->
  stops_on_failed_query client (for_range l body).
Proof.
  intros H. induction l as [| x l IH]; simpl.
  - left. exists tt. reflexivity.
  - unfold stops_on_failed_query. rewrite result_of_bind, trace_bind, queries_app.
    destruct (result_of (body x)) as [[] | code] eqn:R.
    + destruct IH as [IH | (ev & Hlast & Hfailed)]; [left; exact IH |].
      right. exists ev. split; [| exact Hfailed].
      rewrite last_app, Hlast. reflexivity.
    + right. destruct (H x) as [[a Ha] | (ev & Hlast & Hfailed)]; [congruence |].
      exists ev. split; [| exact Hfailed]. simpl. rewrite app_nil_r. exact Hlast.
Qed.

Lemma stops_on_failed_query_check_partition log level client topic partition :
  level <= 0 ->
  stops_on_failed_query client (check_partition log level client topic partition).
Proof.
  intros H. destruct (Replicas client topic partition) as [replicas | e] eqn:E.
  - left. exists tt. rewrite (result_of_check_partition_Ok _ _ _ _ _ _ E).
    rewrite (not_fully_replicated_nonpositive level replicas H). reflexivity.
  - right. exists (Call_Replicas topic partition). split.
    + rewrite queries_check_partition. reflexivity.
    + exists e. exact E.
Qed.

Lemma stops_on_failed_query_evaluate log level client topics :
  level <= 0 ->
  stops_on_failed_query client (evaluate log level client topics).
Proof.
  intros H. apply stops_on_failed_query_for_range. intros topic.
  destruct (Partitions client topic) as [partitions | e] eqn:E.
  - unfold check_topic, stops_on_failed_query.
    rewrite result_of_bind, trace_bind, queries_app. simpl. rewrite E.
    destruct (stops_on_failed_query_for_range client partitions
                (check_partition log level client topic)) as [Hr | (ev & Hlast & Hfailed)].
    + intros partition. apply stops_on_failed_query_check_partition, H.
    + left. exact Hr.
    + right. exists ev. split; [| exact Hfailed].
      change (last ([Call_Partitions topic] ++
                    queries (trace (for_range partitions
                                      (check_partition log level client topic)))) = Some ev).
      rewrite last_app, Hlast. reflexivity.
  - right. exists (Call_Partitions topic). split.
    + rewrite (partition_error_report log level client topic e E).
      simpl. rewrite queries_Log. reflexivity.
    + exists e. exact E.
Qed.

(** C10.  With a replication level of zero or less the number of replicas
    is never held against the level: line 94 reports no partition, the
    whole run is the run at level 0, line for line, and the evaluation
    returns unless a call on the broker fails, in which case that call is
    the last one made. *)
Theorem nonpositive_level_existence_only level :
  level <= 0 ->
  (forall replicas, not_fully_replicated level replicas = false)
  /\ (forall version sarama_NewClient logLevel broker topics,
        main version sarama_NewClient
          {| arg_logLevel := logLevel; arg_broker := broker;
             arg_topics := topics; arg_replicaLevel := Some level |} =
        main version sarama_NewClient
          {| arg_logLevel := logLevel; arg_broker := broker;
             arg_topics := topics; arg_replicaLevel := Some 0 |})
  /\ (forall log client topics,
        result_of (evaluate log level client topics) = Return tt
        \/ exists ev,
             last (queries (trace (evaluate log level client topics))) = Some ev
             /\ failed client ev).
Proof.
  intros H. split; [| split].
  - intros replicas. apply not_fully_replicated_nonpositive, H.
  - intros version sarama_NewClient ll b t. unfold main.
    apply bind_ext. intros _. apply bind_ext. intros [client | e]; [| reflexivity].
    f_equal. apply bind_ext. intros topicsList. apply bind_ext. intros _.
    apply evaluate_nonpositive, H.
  - intros log client topics.
    destruct (stops_on_failed_query_evaluate log level client topics H)
      as [[[] Hr] | Hf]; [left; exact Hr | right; exact Hf].
Qed.

Lemma nonpositive_level_existence_only_witness :
  main "no version set" (fun _ => Ok orders_cluster)
    {| arg_logLevel := None; arg_broker := None;
       arg_topics := Some "orders"; arg_replicaLevel := Some (-1) |} =
  main "no version set" (fun _ => Ok orders_cluster)
    {| arg_logLevel := None; arg_broker := None;
       arg_topics := Some "orders"; arg_replicaLevel := Some 0 |}.
Proof.
  apply (nonpositive_level_existence_only (-1)). lia.
Defined.

(** ** Sample runs *)

(** [-topics=orders -replicaLevel=3]: partition 0 has three replicas,
    partition 1 has two. *)
Example run_orders_level_3 :
  spec_run ["orders"] 3 orders_cluster = Unhealthy "orders" 1 3 2
  /\ exit_status (main "no version set" (fun _ => Ok orders_cluster)
                    (command_line "warn" "orders" 3)) = 1
  /\ queries (trace (main "no version set" (fun _ => Ok orders_cluster)
                       (command_line "warn" "orders" 3))) =
     [Call_Partitions "orders"; Call_Replicas "orders" 0; Call_Replicas "orders" 1].
Proof. repeat split; reflexivity. Qed.

(** No [-topics], [-replicaLevel=0]: the topics of the broker are checked
    for existence, and the client is closed on the way out. *)
Example run_all_topics_level_0 :
  spec_run (topicsList (command_line "warn" "" 0)) 0 orders_cluster = Healthy
  /\ main "no version set" (fun _ => Ok orders_cluster) (command_line "warn" "" 0) =
     ([Call_NewClient ["localhost:9092"]; Call_Topics; Call_Partitions "orders";
       Call_Replicas "orders" 0; Call_Replicas "orders" 1; Call_Close],
      Return tt).
Proof. split; reflexivity. Qed.

(** [-topics=missing]: the partitions cannot be listed. *)
Example run_missing_topic :
  spec_run ["missing"] 2 orders_cluster =
    EvaluationError (PartitionListError "missing" "unknown topic or partition")
  /\ exit_status (main "no version set" (fun _ => Ok orders_cluster)
                    (command_line "warn" "missing" 2)) = 1.
Proof. split; reflexivity. Qed.

(** The debug line of line 91, as [fmt.Sprint] joins its operands. *)
Example run_debug_line :
  stdout (trace (check_partition {| logrus.level := logrus.DebugLevel |} 3
                   orders_cluster "orders" 0)) =
  [{| logrus.Data := ∅; logrus.Level_of := logrus.DebugLevel;
      logrus.Message := "found topictopicorderspartition0replica[1 2 3]" |}].
Proof. reflexivity. Qed.

(** * Further properties of [main.go] *)

(** ** The events of a run *)

Lemma Forall_trace_bind {A B} (P : event -> Prop) (m : proc A) (k : A -> proc B) :
  Forall P (trace m) -> (forall a, Forall P (trace (k a))) ->
  Forall P (trace (bind m k)).
Proof.
  intros Hm Hk. rewrite trace_bind. apply Forall_app. split; [exact Hm |].
  destruct (result_of m); [apply Hk | constructor].
Qed.

Lemma Forall_trace_for_range {A} (P : event -> Prop) (l : list A) body :
  (forall x, Forall P (trace (body x))) -> Forall P (trace (for_range l body)).
Proof.
  intros H. induction l as [| x l IH]; simpl; [constructor |].
  apply Forall_trace_bind; auto.
Qed.

Lemma Forall_trace_Log (P : event -> Prop) log lvl fields msg :
  (forall e, P (Stdout e)) -> Forall P (trace (Log log lvl fields msg)).
Proof.
  intros H. unfold Log. destruct (logrus.IsLevelEnabled log lvl); simpl; auto.
Qed.

Lemma Forall_trace_Fatal {A} (P : event -> Prop) log fields msg :
  (forall e, P (Stdout e)) -> Forall P (trace (@Fatal A log fields msg)).
Proof. intros H. rewrite trace_Fatal. apply Forall_trace_Log, H. Qed.

(** The evaluation only logs, lists partitions and lists replicas. *)
Lemma evaluate_events (P : event -> Prop) log level client topics :
  (forall e, P (Stdout e)) ->
  (forall topic, P (Call_Partitions topic)) ->
  (forall topic partition, P (Call_Replicas topic partition)) ->
  Forall P (trace (evaluate log level client topics)).
Proof.
  intros Hout Hparts Hreps. apply Forall_trace_for_range. intros topic.
  unfold check_topic. apply Forall_trace_bind; [repeat constructor; apply Hparts |].
  intros [partitions | e]; [| apply Forall_trace_Fatal, Hout].
  apply Forall_trace_for_range. intros partition.
  unfold check_partition. apply Forall_trace_bind; [repeat constructor; apply Hreps |].
  intros [replicas | e]; [| apply Forall_trace_Fatal, Hout].
  apply Forall_trace_bind; [apply Forall_trace_Log, Hout |]. intros _.
  destruct (not_fully_replicated level replicas);
    [apply Forall_trace_Fatal, Hout | constructor].
Qed.

(** ** Splitting the flags (lines 40-41) *)

Lemma Join_cons c piece pieces :
  Join (String c piece :: pieces) = String c (Join (piece :: pieces)).
Proof. destruct pieces; reflexivity. Qed.

(** X2.  Splitting on commas loses nothing and leaves no comma: the
    pieces joined by commas give the string back, and no piece holds a
    comma.  So the broker addresses and the topic names are exactly the
    stretches of the flag between its commas. *)
Theorem Split_Join s :
  Join (Split s) = s /\ Forall (fun piece => has_comma piece = false) (Split s).
Proof.
  induction s as [| c s [IHj IHc]]; [split; [reflexivity | repeat constructor] |].
  simpl. destruct (Split s) as [| piece pieces] eqn:E; [destruct (Split_nonempty _ E) |].
  destruct (Ascii.eqb_spec c ","%char) as [-> | Hne].
  - split; [| constructor; [reflexivity | exact IHc]].
    change (Join ("" :: piece :: pieces)) with (String ","%char (Join (piece :: pieces))).
    rewrite IHj. reflexivity.
  - split.
    + rewrite Join_cons, IHj. reflexivity.
    + apply Forall_cons in IHc as [Hp Hps]. constructor; [| exact Hps].
      simpl. rewrite Hp. apply Ascii.eqb_neq in Hne. rewrite Hne. reflexivity.
Qed.

Lemma Split_Join_witness :
  Join (Split "kafka-0:9092,kafka-1:9092") = "kafka-0:9092,kafka-1:9092".
Proof. apply (Split_Join "kafka-0:9092,kafka-1:9092"). Defined.

(** ** Which topics are checked (lines 41 and 57-58) *)

(** X1.  On a run that reaches the broker, the broker is asked for its
    topics exactly when the value of [-topics] is the empty string.  A
    value such as [","] or ["a,"] names empty topics: they are checked
    as they are, and the topics of the broker are not asked for. *)
Theorem all_topics_iff_unspecified version sarama_NewClient cl client :
  sarama_NewClient (brokersList cl) = Ok client ->
  (Call_Topics ∈ trace (main version sarama_NewClient cl) <-> topics cl = "").
Proof.
  intros E. rewrite (main_connected _ _ _ _ E).
  rewrite trace_bind. unfold Info at 2. rewrite result_of_Log.
  rewrite trace_bind. cbn [result_of call snd trace fst].
  rewrite trace_defer. unfold checks. rewrite result_of_bind, trace_bind.
  split.
  - intros Hin. apply Split_unspecified.
    destruct (decide (Split (topics cl) = [""])) as [Hs | Hs]; [exact Hs | exfalso].
    unfold topicsList in Hin.
    rewrite (resolve_other _ client _ Hs) in Hin. cbn [result_of trace fst snd] in Hin.
    assert (Hall : Forall (fun ev => ev <> Call_Topics)
                     (trace (main version sarama_NewClient cl))).
    2: { rewrite Forall_forall in Hall. apply (Hall Call_Topics); [| reflexivity].
         rewrite (main_connected _ _ _ _ E).
         rewrite trace_bind. unfold Info at 2. rewrite result_of_Log.
         rewrite trace_bind. cbn [result_of call snd trace fst].
         rewrite trace_defer. unfold checks. rewrite result_of_bind, trace_bind.
         unfold topicsList. rewrite (resolve_other _ client _ Hs).
         exact Hin. }
    rewrite (main_connected _ _ _ _ E).
    rewrite trace_bind. unfold Info at 2. rewrite result_of_Log.
    rewrite trace_bind. cbn [result_of call snd trace fst].
    rewrite trace_defer. unfold checks. rewrite result_of_bind, trace_bind.
    unfold topicsList. rewrite (resolve_other _ client _ Hs).
    cbn [result_of trace fst snd].
    apply Forall_app. split; [apply Forall_trace_Log; discriminate |].
    apply Forall_app. split; [repeat constructor; discriminate |].
    apply Forall_app. split.
    + apply Forall_app. split; [constructor |].
      apply Forall_trace_bind; [apply Forall_trace_Log; discriminate |].
      intros _. apply evaluate_events; discriminate.
    + destruct (result_of _); repeat constructor; discriminate.
  - intros Ht. unfold topicsList. rewrite Ht. simpl Split.
    apply elem_of_app. right. apply elem_of_app. right.
    apply elem_of_app. left. apply elem_of_app. left.
    destruct (Topics client) as [all | e] eqn:T.
    + rewrite (resolve_all_Ok _ _ _ T). left.
    + rewrite (resolve_all_Err _ _ _ T). left.
Qed.

Lemma all_topics_iff_unspecified_witness :
  Call_Topics ∈ trace (main "no version set" (fun _ => Ok orders_cluster) no_arguments)
  /\ ~ Call_Topics ∈ trace (main "no version set" (fun _ => Ok orders_cluster)
                             (command_line "warn" "," 2)).
Proof.
  split.
  - apply (all_topics_iff_unspecified "no version set" (fun _ => Ok orders_cluster)
             no_arguments orders_cluster); reflexivity.
  - intros H.
    apply (all_topics_iff_unspecified "no version set" (fun _ => Ok orders_cluster)
             (command_line "warn" "," 2) orders_cluster) in H; [discriminate | reflexivity].
Defined.

(** ** A broker that cannot be reached (lines 49-52) *)

(** X3.  When the client cannot be created the run ends with status 1
    without a single call on a client: nothing is asked of the broker and
    nothing is closed.  Unless the level of the logger is panic, the last
    line of the log is the fatal entry [Failed to start sarama client:]
    followed by the error. *)
Theorem connection_failure_run version sarama_NewClient cl e :
  sarama_NewClient (brokersList cl) = Err e ->
  exit_status (main version sarama_NewClient cl) = 1
  /\ calls (trace (main version sarama_NewClient cl)) = [Call_NewClient (brokersList cl)]
  /\ (myLogLevel cl <> logrus.PanicLevel ->
      failure_report (main version sarama_NewClient cl) =
      Some {| logrus.Data := ∅; logrus.Level_of := logrus.FatalLevel;
              logrus.Message := "Failed to start sarama client: " +:+ e |}).
Proof.
  intros E. split; [| split].
  - unfold exit_status. rewrite (connection_failure _ _ _ _ E). reflexivity.
  - unfold main. rewrite trace_bind. unfold Info. rewrite result_of_Log.
    rewrite trace_bind. cbn [result_of call snd trace fst]. rewrite E.
    rewrite trace_Fatal. unfold Log.
    destruct (logrus.IsLevelEnabled _ logrus.InfoLevel);
      destruct (logrus.IsLevelEnabled _ logrus.FatalLevel); reflexivity.
  - intros Hl. unfold failure_report, main.
    rewrite trace_bind. unfold Info. rewrite result_of_Log.
    rewrite trace_bind. cbn [result_of call snd trace fst]. rewrite E.
    rewrite app_assoc. apply (last_stdout_Fatal (new_logger cl)). exact Hl.
Qed.

Lemma connection_failure_run_witness :
  exit_status (main "no version set" (fun _ => Err "dial tcp: connection refused")
                 no_arguments) = 1
  /\ calls (trace (main "no version set" (fun _ => Err "dial tcp: connection refused")
                     no_arguments)) = [Call_NewClient ["localhost:9092"]].
Proof.
  split;
    apply (connection_failure_run "no version set"
             (fun _ => Err "dial tcp: connection refused") no_arguments
             "dial tcp: connection refused"); reflexivity.
Defined.

(** ** A topic whose partitions cannot be listed (lines 74-80) *)

(** X4.  The evaluation stops at the first topic whose partitions the
    broker cannot list: the process leaves with status 1, the last call
    on the broker is that partition list, no replica of the topic is
    asked for, and unless the level of the logger is panic the last line
    of the log is the fatal entry [Error Listing Partitions] with the
    error and the topic. *)
Theorem partition_list_failure log level client before topic after e :
  (forall t, t ∈ before -> result_of (check_topic log level client t) = Return tt) ->
  Partitions client topic = Err e ->
  result_of (evaluate log level client (before ++ topic :: after)) = Exit 1
  /\ queries (trace (evaluate log level client (before ++ topic :: after))) =
     queries (trace (evaluate log level client before)) ++ [Call_Partitions topic]
  /\ (logrus.level log <> logrus.PanicLevel ->
      last (stdout (trace (evaluate log level client (before ++ topic :: after)))) =
      Some {| logrus.Data :=
                {[ "err" := logrus.VError e; "topic" := logrus.VString topic ]};
              logrus.Level_of := logrus.FatalLevel;
              logrus.Message := "Error Listing Partitions" |}).
Proof.
  intros Hpass Herr.
  assert (Hstop : result_of (check_topic log level client topic) = Exit 1)
    by (rewrite (partition_error_report _ _ _ _ _ Herr); reflexivity).
  destruct (for_range_stop before after topic _ 1 Hpass Hstop) as [Hr Ht].
  destruct (for_range_pass before _ Hpass) as [_ Hb].
  unfold evaluate. rewrite Hr, Ht, Hb. split; [reflexivity |].
  rewrite (partition_error_report _ _ _ _ _ Herr). cbn [trace fst]. split.
  - rewrite queries_app, queries_app, queries_Log. reflexivity.
  - intros Hl. unfold Log. rewrite (fatal_enabled _ Hl).
    rewrite !app_assoc, stdout_app. simpl. apply last_snoc.
Qed.

Lemma partition_list_failure_witness :
  result_of (evaluate {| logrus.level := logrus.WarnLevel |} 0 orders_cluster
               ["orders"; "missing"; "orders"]) = Exit 1
  /\ queries (trace (evaluate {| logrus.level := logrus.WarnLevel |} 0 orders_cluster
                       ["orders"; "missing"; "orders"])) =
     [Call_Partitions "orders"; Call_Replicas "orders" 0; Call_Replicas "orders" 1;
      Call_Partitions "missing"].
Proof.
  assert (H := partition_list_failure {| logrus.level := logrus.WarnLevel |} 0
                 orders_cluster ["orders"] "missing" ["orders"]
                 "unknown topic or partition").
  simpl in H. split; apply H; try reflexivity;
    intros t Ht; apply list_elem_of_singleton in Ht as ->; reflexivity.
Defined.

(** ** The calls of a run that passes (lines 73-101) *)

Lemma for_range_Return {A} (l : list A) body :
  result_of (for_range l body) = Return tt ->
  forall x, x ∈ l -> result_of (body x) = Return tt.
Proof.
  induction l as [| y l IH]; intros H x Hx; [inversion Hx |].
  simpl in H. rewrite result_of_bind in H.
  destruct (result_of (body y)) as [[] | code] eqn:R; [| discriminate].
  apply elem_of_cons in Hx as [-> | Hx]; [exact R | apply IH; assumption].
Qed.

Lemma check_topic_Return log level client topic :
  result_of (check_topic log level client topic) = Return tt ->
  queries (trace (check_topic log level client topic)) =
  Call_Partitions topic :: map (Call_Replicas topic) (partitions_of client topic).
Proof.
  unfold check_topic, partitions_of. rewrite result_of_bind, trace_bind.
  cbn [result_of call snd trace fst].
  destruct (Partitions client topic) as [partitions | e].
  - intros H. destruct (for_range_pass partitions _ (for_range_Return _ _ H)) as [_ Ht].
    rewrite Ht. simpl. f_equal. rewrite queries_flat_map.
    rewrite (flat_map_ext _ (fun q => [Call_Replicas topic q]))
      by (intros q; apply queries_check_partition).
    apply flat_map_singleton.
  - rewrite result_of_Fatal. discriminate.
Qed.

(** X5.  An evaluation that returns has asked the broker, for each topic
    in the order given, for its partitions and then for the replicas of
    each of them in the order the broker listed them, and for nothing
    else.  A topic named twice is checked twice. *)
Theorem passing_run_queries log level client topics :
  result_of (evaluate log level client topics) = Return tt ->
  queries (trace (evaluate log level client topics)) =
  flat_map (fun topic =>
              Call_Partitions topic
              :: map (Call_Replicas topic) (partitions_of client topic))
           topics.
Proof.
  unfold evaluate. intros H.
  assert (Hall := for_range_Return _ _ H).
  destruct (for_range_pass topics _ Hall) as [_ Ht]. rewrite Ht, queries_flat_map.
  clear H Ht. induction topics as [| topic rest IH]; [reflexivity |].
  simpl. rewrite (check_topic_Return log level client topic) by (apply Hall; left).
  rewrite IH by (intros x Hx; apply Hall; right; exact Hx). reflexivity.
Qed.

Lemma passing_run_queries_witness :
  queries (trace (evaluate {| logrus.level := logrus.WarnLevel |} 0 orders_cluster
                    ["orders"; "orders"])) =
  [Call_Partitions "orders"; Call_Replicas "orders" 0; Call_Replicas "orders" 1;
   Call_Partitions "orders"; Call_Replicas "orders" 0; Call_Replicas "orders" 1].
Proof.
  apply (passing_run_queries {| logrus.level := logrus.WarnLevel |} 0 orders_cluster
           ["orders"; "orders"]). reflexivity.
Defined.

(** ** What ends a run (lines 74-99) *)

Lemma stops_at_culprit_for_range {A} level client (l : list A) body :
  (forall x, stops_at_culprit level client (body x)) ->
  stops_at_culprit level client (for_range l body).
Proof.
  intros H. induction l as [| x l IH]; simpl; [exact I |].
  unfold stops_at_culprit. rewrite result_of_bind, trace_bind, queries_app.
  specialize (H x). unfold stops_at_culprit in H, IH.
  destruct (result_of (body x)) as [[] | code].
  - destruct (result_of (for_range l body)) as [[] | code]; [exact I |].
    destruct IH as (Hcode & ev & Hlast & Hev). split; [exact Hcode |].
    exists ev. split; [| exact Hev]. rewrite last_app, Hlast. reflexivity.
  - simpl. rewrite app_nil_r. exact H.
Qed.

Lemma result_of_check_partition_Err log level client topic partition e :
  Replicas client topic partition = Err e ->
  result_of (check_partition log level client topic partition) = Exit 1.
Proof.
  intros H. unfold check_partition. rewrite result_of_bind. simpl. rewrite H.
  apply result_of_Fatal.
Qed.

Lemma stops_at_culprit_check_partition log level client topic partition :
  stops_at_culprit level client (check_partition log level client topic partition).
Proof.
  unfold stops_at_culprit.
  destruct (result_of (check_partition log level client topic partition))
    as [[] | code] eqn:R; [exact I |].
  rewrite queries_check_partition.
  destruct (Replicas client topic partition) as [replicas | e] eqn:E.
  - rewrite (result_of_check_partition_Ok _ _ _ _ _ _ E) in R.
    destruct (not_fully_replicated level replicas) eqn:N; [| discriminate].
    split; [congruence |]. eexists. split; [reflexivity |]. right.
    exists replicas. split; [exact E |]. apply not_fully_replicated_true, N.
  - rewrite (result_of_check_partition_Err log level client topic partition e E) in R.
    split; [simpl in R; congruence |]. eexists. split; [reflexivity |]. left.
    exists e. exact E.
Qed.

(** X6.  Whenever the evaluation leaves the process, it does so with
    status 1 and right after the call on the broker that caused it: the
    last call made either failed, or listed a number of replicas that
    differs from a replication level above zero. *)
Theorem exit_has_a_culprit log level client topics code :
  result_of (evaluate log level client topics) = Exit code ->
  code = 1
  /\ exists ev,
       last (queries (trace (evaluate log level client topics))) = Some ev
       /\ (failed client ev \/ wrong_size level client ev).
Proof.
  intros H.
  assert (Hs : stops_at_culprit level client (evaluate log level client topics)).
  { apply stops_at_culprit_for_range. intros topic.
    destruct (Partitions client topic) as [partitions | e] eqn:E.
    - assert (Hp := stops_at_culprit_for_range level client partitions
                      (check_partition log level client topic)
                      (stops_at_culprit_check_partition log level client topic)).
      unfold stops_at_culprit in *. unfold check_topic.
      rewrite result_of_bind, trace_bind. cbn [result_of call snd trace fst].
      rewrite E.
      destruct (result_of (for_range partitions _)) as [[] | c]; [exact I |].
      destruct Hp as (Hc & ev & Hlast & Hev). split; [exact Hc |].
      exists ev. split; [| exact Hev].
      rewrite queries_app, last_app, Hlast. reflexivity.
    - unfold stops_at_culprit. rewrite (partition_error_report _ _ _ _ _ E).
      cbn [result_of trace fst snd]. split; [reflexivity |].
      exists (Call_Partitions topic). split.
      + rewrite queries_app, queries_Log. reflexivity.
      + left. exists e. exact E. }
  unfold stops_at_culprit in Hs. rewrite H in Hs. exact Hs.
Qed.

Lemma exit_has_a_culprit_witness :
  exists ev,
    last (queries (trace (evaluate {| logrus.level := logrus.WarnLevel |} 3
                            orders_cluster ["orders"]))) = Some ev
    /\ (failed orders_cluster ev \/ wrong_size 3 orders_cluster ev).
Proof.
  apply (exit_has_a_culprit {| logrus.level := logrus.WarnLevel |} 3
           orders_cluster ["orders"] 1). reflexivity.
Defined.

(** ** The exit status (lines 20-102) *)


(** X8.  A run that reaches the broker and ends with status 0 has closed
    the client once, and closing it is the last thing the run did. *)
Theorem close_is_last_on_success version sarama_NewClient cl client :
  sarama_NewClient (brokersList cl) = Ok client ->
  exit_status (main version sarama_NewClient cl) = 0 ->
  closes (trace (main version sarama_NewClient cl)) = 1%nat
  /\ last (trace (main version sarama_NewClient cl)) = Some Call_Close.
Proof.
  intros E H. assert (Hm := closes_main version sarama_NewClient cl client E).
  unfold exit_status in H.
  destruct (result_of (main version sarama_NewClient cl)); [exact Hm |].
  destruct Hm as [-> _]. discriminate.
Qed.

Lemma close_is_last_on_success_witness :
  closes (trace (main "no version set" (fun _ => Ok orders_cluster)
                   (command_line "debug" "orders" 0))) = 1%nat
  /\ last (trace (main "no version set" (fun _ => Ok orders_cluster)
                    (command_line "debug" "orders" 0))) = Some Call_Close.
Proof.
  apply (close_is_last_on_success "no version set" (fun _ => Ok orders_cluster)
           (command_line "debug" "orders" 0) orders_cluster); reflexivity.
Defined.

(** ** What the log level changes (lines 26-30) *)

Lemma calls_app tr tr' : calls (tr ++ tr') = calls tr ++ calls tr'.
Proof. apply List.filter_app. Qed.

Lemma calls_Log log lvl fields msg : calls (trace (Log log lvl fields msg)) = [].
Proof. unfold Log. destruct (logrus.IsLevelEnabled log lvl); reflexivity. Qed.

Lemma same_calls_refl {A} (p : proc A) : same_calls p p.
Proof. split; reflexivity. Qed.

Lemma same_calls_bind {A B} (m m' : proc A) (k k' : A -> proc B) :
  same_calls m m' -> (forall a, same_calls (k a) (k' a)) ->
  same_calls (bind m k) (bind m' k').
Proof.
  intros [Hr Hc] Hk. unfold same_calls.
  rewrite !result_of_bind, !trace_bind, !calls_app, Hc, <- Hr.
  destruct (result_of m) as [a | code].
  - destruct (Hk a) as [Hr' Hc']. rewrite Hc'. split; [exact Hr' | reflexivity].
  - split; reflexivity.
Qed.

Lemma same_calls_Log log log' lvl fields msg :
  same_calls (Log log lvl fields msg) (Log log' lvl fields msg).
Proof. split; [rewrite !result_of_Log | rewrite !calls_Log]; reflexivity. Qed.

Lemma same_calls_Fatal {A} log log' fields msg :
  same_calls (@Fatal A log fields msg) (@Fatal A log' fields msg).
Proof.
  split; [rewrite !result_of_Fatal | rewrite !trace_Fatal, !calls_Log]; reflexivity.
Qed.

Lemma same_calls_for_range {A} (l : list A) body body' :
  (forall x, same_calls (body x) (body' x)) ->
  same_calls (for_range l body) (for_range l body').
Proof.
  intros H. induction l as [| x l IH]; simpl; [apply same_calls_refl |].
  apply same_calls_bind; auto.
Qed.

Lemma same_calls_defer {A} deferred (body body' : proc A) :
  same_calls body body' -> same_calls (defer deferred body) (defer deferred body').
Proof.
  intros [Hr Hc]. unfold same_calls.
  rewrite !result_of_defer, !trace_defer, !calls_app, Hc, <- Hr.
  split; reflexivity.
Qed.

Lemma same_calls_evaluate log log' level client topics :
  same_calls (evaluate log level client topics) (evaluate log' level client topics).
Proof.
  apply same_calls_for_range. intros topic. unfold check_topic.
  apply same_calls_bind; [apply same_calls_refl |].
  intros [partitions | e]; [| apply same_calls_Fatal].
  apply same_calls_for_range. intros partition. unfold check_partition.
  apply same_calls_bind; [apply same_calls_refl |].
  intros [replicas | e]; [| apply same_calls_Fatal].
  apply same_calls_bind; [apply same_calls_Log |]. intros _.
  destruct (not_fully_replicated level replicas);
    [apply same_calls_Fatal | apply same_calls_refl].
Qed.

Lemma same_calls_resolve log log' client requested :
  same_calls (resolve log client requested) (resolve log' client requested).
Proof.
  unfold resolve.
  destruct (Nat.eqb (length requested) 1 && String.eqb (nth 0 requested "") "")%bool;
    [| apply same_calls_refl].
  apply same_calls_bind; [apply same_calls_refl |].
  intros [all | e]; [apply same_calls_refl | apply same_calls_Fatal].
Qed.

(** X9.  The value of [-logLevel] changes what is written to the log and
    nothing else: two runs that differ only in it end with the same exit
    status and make the same calls on the client, in the same order. *)
Theorem logLevel_only_changes_the_log version sarama_NewClient
    logLevel logLevel' broker topics replicaLevel :
  same_calls
    (main version sarama_NewClient
       {| arg_logLevel := logLevel; arg_broker := broker;
          arg_topics := topics; arg_replicaLevel := replicaLevel |})
    (main version sarama_NewClient
       {| arg_logLevel := logLevel'; arg_broker := broker;
          arg_topics := topics; arg_replicaLevel := replicaLevel |}).
Proof.
  unfold main. apply same_calls_bind; [apply same_calls_Log |]. intros _.
  apply same_calls_bind; [apply same_calls_refl |].
  intros [client | e]; [| apply same_calls_Fatal].
  apply same_calls_defer. unfold checks.
  apply same_calls_bind; [apply same_calls_resolve |]. intros requested.
  apply same_calls_bind; [apply same_calls_Log |]. intros _.
  apply same_calls_evaluate.
Qed.

(** ** How much is logged (lines 35-37, 67-70 and 91) *)









(** ** Nothing to check (lines 57-58, 73 and 82) *)

(** X11.  When [-topics] is not given and the broker lists no topic, or
    only topics without partitions, the run passes at every replication
    level: the exit status is 0 and no replica is asked for. *)
Theorem nothing_to_check_passes version sarama_NewClient cl client all :
  sarama_NewClient (brokersList cl) = Ok client ->
  topics cl = "" ->
  Topics client = Ok all ->
  (forall topic, topic ∈ all -> Partitions client topic = Ok []) ->
  exit_status (main version sarama_NewClient cl) = 0
  /\ queries (trace (main version sarama_NewClient cl)) =
     Call_Topics :: map Call_Partitions all.
Proof.
  intros E Ht Hall Hempty.
  assert (Hpass : forall topic, topic ∈ all ->
            result_of (check_topic (new_logger cl) (replicaLevel cl) client topic) = Return tt).
  { intros topic Hin. unfold check_topic. rewrite result_of_bind. simpl.
    rewrite (Hempty topic Hin). reflexivity. }
  destruct (for_range_pass all _ Hpass) as [Hr Htr].
  assert (Hq : queries (trace (evaluate (new_logger cl) (replicaLevel cl) client all)) =
               map Call_Partitions all).
  { unfold evaluate. rewrite Htr, queries_flat_map. clear Hr Htr Hall Hpass.
    induction all as [| topic rest IH]; [reflexivity |]. simpl.
    unfold check_topic at 1. rewrite trace_bind. cbn [result_of call snd trace fst].
    rewrite (Hempty topic) by left. simpl. f_equal.
    apply IH. intros t Hin. apply Hempty. right. exact Hin. }
  rewrite (main_connected _ _ _ _ E). unfold exit_status.
  rewrite result_of_bind, trace_bind. unfold Info. rewrite result_of_Log.
  rewrite result_of_bind, trace_bind. cbn [result_of call snd trace fst].
  rewrite result_of_defer, trace_defer. unfold checks, topicsList.
  rewrite Ht. simpl Split. rewrite (resolve_all_Ok _ _ _ Hall).
  rewrite result_of_bind, trace_bind. cbn [result_of snd trace fst].
  rewrite result_of_bind, trace_bind. unfold Debug. rewrite result_of_Log.
  fold (evaluate (new_logger cl) (replicaLevel cl) client all) in Hr.
  rewrite Hr. split; [reflexivity |].
  rewrite !queries_app, !queries_Log, Hq. simpl. rewrite app_nil_r. reflexivity.
Qed.

Lemma nothing_to_check_passes_witness :
  exit_status (main "no version set" (fun _ => Ok empty_cluster) no_arguments) = 0.
Proof.
  apply (nothing_to_check_passes "no version set" (fun _ => Ok empty_cluster)
           no_arguments empty_cluster []); try reflexivity.
  intros topic H. inversion H.
Defined.

(** * The vendored logger *)

(** ** Names of levels (loglevel.go) *)

(** X12.  [Set] reads back what [String] prints for the five declared
    levels, whatever the receiver held.  For any other level [String]
    prints [invalid level(n)], which [Set] refuses, leaving the receiver
    as it was. *)
Theorem probe_level_names (held l : probe.Level) :
  (0 <= l <= 4 -> probe.Set_ held (probe.String l) = (l, None))
  /\ (l < 0 \/ 4 < l ->
      probe.String l = "invalid level(" +:+ fmt_d l +:+ ")"
      /\ probe.Set_ held (probe.String l) =
         (held, Some ("invalid level " +:+ probe.String l))).
Proof.
  split.
  - intros H.
    assert (Hl : l = 0 \/ l = 1 \/ l = 2 \/ l = 3 \/ l = 4) by lia.
    destruct Hl as [-> | [-> | [-> | [-> | ->]]]]; reflexivity.
  - intros H.
    assert (Hs : probe.String l = "invalid level(" +:+ fmt_d l +:+ ")").
    { unfold probe.String, probe.FatalLevel, probe.ErrorLevel, probe.WarnLevel,
        probe.InfoLevel, probe.DebugLevel.
      repeat (match goal with
              | |- context [?a =? ?b] =>
                  replace (a =? b) with false by (symmetry; apply Z.eqb_neq; lia)
              end).
      reflexivity. }
    split; [exact Hs |]. rewrite Hs. reflexivity.
Qed.

Lemma probe_level_names_witness :
  probe.Set_ probe.InfoLevel (probe.String probe.WarnLevel) = (probe.WarnLevel, None)
  /\ probe.Set_ probe.InfoLevel (probe.String 7) =
     (probe.InfoLevel, Some "invalid level invalid level(7)").
Proof.
  split.
  - apply (probe_level_names probe.InfoLevel probe.WarnLevel).
    unfold probe.WarnLevel. lia.
  - apply (probe_level_names probe.InfoLevel 7). lia.
Defined.

(** ** Key-value pairs into fields (logger.go, lines 189-207) *)

Lemma pairs_ind {A} (P : list A -> Prop) :
  P [] -> (forall k, P [k]) -> (forall k v rest, P rest -> P (k :: v :: rest)) ->
  forall l, P l.
Proof.
  intros Hnil Hone Hstep l.
  assert (H : P l /\ forall k, P (k :: l)); [| apply H].
  induction l as [| x l [IH1 IH2]]; [split; auto |].
  split; [apply IH2 |]. intros k. apply Hstep, IH1.
Qed.

(** X13.  Pairs of a string key and a value become one field each, with
    that key and that value, in order: nothing is added, dropped or
    reordered. *)
Theorem zapfields_pairs (pairs : list (string * probe.any)) :
  probe.zapfields (probe.keyvals_of pairs) =
  map (fun kv => probe.zap_Any (fst kv) (snd kv)) pairs.
Proof.
  induction pairs as [| [key val] pairs IH]; [reflexivity |].
  simpl. rewrite <- IH. reflexivity.
Qed.


Lemma zapfields_even_app (keyvals keyvals' : list probe.any) :
  Nat.even (length keyvals) = true ->
  probe.zapfields (keyvals ++ keyvals') =
  probe.zapfields keyvals ++ probe.zapfields keyvals'.
Proof.
  induction keyvals as [| k | k v rest IH] using pairs_ind; intros H.
  - reflexivity.
  - discriminate.
  - change (Nat.even (length rest) = true) in H.
    change ((k :: v :: rest) ++ keyvals') with (k :: v :: rest ++ keyvals').
    destruct k; simpl; rewrite (IH H); reflexivity.
Qed.

(** ** Loggers (option.go and logger.go) *)

(** What the options of [New] leave alone and what they keep true. *)
Lemma options_fold (options : list probe.Option) (init : probe.Logger) :
  let lg := fold_left (fun lg o => probe.Option_apply o lg) options init in
  probe.l lg = probe.l init
  /\ probe.with_ lg = probe.with_ init
  /\ probe.opts lg = probe.opts init
  /\ (probe.alvl init = probe.tozaplevel (probe.lvl init) ->
      probe.alvl lg = probe.tozaplevel (probe.lvl lg))
  /\ (probe.callSkip init = 3 -> probe.callSkip lg = 3).
Proof.
  revert init. induction options as [| o options IH]; intros init; simpl.
  - repeat split; auto.
  - destruct (IH (probe.Option_apply o init)) as (Hl & Hw & Ho & Ha & Hc).
    destruct o; simpl in *; repeat split; auto.
Qed.

Lemma New_fields (options : list probe.Option) :
  probe.l (probe.New options) = []
  /\ probe.with_ (probe.New options) = []
  /\ probe.opts (probe.New options) = options
  /\ probe.alvl (probe.New options) = probe.tozaplevel (probe.lvl (probe.New options))
  /\ probe.callSkip (probe.New options) = 3.
Proof.
  unfold probe.New.
  match goal with |- context [fold_left _ _ ?i] =>
    destruct (options_fold options i) as (Hl & Hw & Ho & Ha & Hc) end.
  simpl in *. repeat split; auto.
Qed.

Lemma reachable_levels (lg : probe.Logger) :
  probe.reachable lg -> probe.alvl lg = probe.tozaplevel (probe.lvl lg).
Proof.
  induction 1 as [options | lg v _ IH | lg keyvals _ IH | lg skip _ IH];
    [apply New_fields | reflexivity | exact IH | exact IH].
Qed.

(** X15.  Every logger a program can hold (made by [New] with any
    options, changed by [SetLevel], derived by [With] or [WithCallSkip])
    keeps its two levels in step and its two lists of fields equal: zap
    filters at the level [tozaplevel] gives for the level of the logger,
    and the context of the zap logger is the list of fields the logger
    remembers for cloning. *)
Theorem logger_invariant (lg : probe.Logger) :
  probe.reachable lg ->
  probe.alvl lg = probe.tozaplevel (probe.lvl lg)
  /\ probe.l lg = probe.with_ lg.
Proof.
  intros H. split; [apply reachable_levels, H |].
  induction H as [options | lg v _ IH | lg keyvals _ IH | lg skip _ IH].
  - destruct (New_fields options) as (Hl & Hw & _). congruence.
  - exact IH.
  - destruct (New_fields (probe.opts lg)) as (Hl & _).
    simpl. rewrite Hl. reflexivity.
  - destruct (New_fields (probe.opts lg)) as (Hl & _).
    simpl. rewrite Hl. reflexivity.
Qed.

Lemma logger_invariant_witness :
  probe.alvl (probe.With (probe.SetLevel (probe.New [probe.WithDebug]) probe.ErrorLevel)
                [probe.any_string "topic"; probe.any_string "orders"]) =
  probe.zap_ErrorLevel.
Proof.
  apply (logger_invariant
           (probe.With (probe.SetLevel (probe.New [probe.WithDebug]) probe.ErrorLevel)
              [probe.any_string "topic"; probe.any_string "orders"])).
  repeat constructor.
Defined.

(** X16.  The number of callers to skip set by [WithCallSkip] lasts
    until the next [With] or [WithCallSkip]: a logger derived from it is
    built anew from the options, which all leave that number at 3. *)
Theorem callSkip_is_not_inherited (lg : probe.Logger) (skip : Z) :
  probe.callSkip (probe.WithCallSkip lg skip) = skip
  /\ (forall keyvals,
        probe.callSkip (probe.With (probe.WithCallSkip lg skip) keyvals) = 3)
  /\ (forall keyvals other,
        probe.callSkip (probe.WithCallSkip (probe.With lg keyvals) other) = other).
Proof.
  split; [reflexivity |]. split; [| reflexivity].
  intros keyvals. simpl. apply New_fields.
Qed.

(** X17.  Deriving twice is deriving once: after an even number of
    values, [With] on the logger [With] gave is [With] of all the values
    at once, field for field. *)
Theorem With_With (lg : probe.Logger) (keyvals keyvals' : list probe.any) :
  Nat.even (length keyvals) = true ->
  probe.With (probe.With lg keyvals) keyvals' = probe.With lg (keyvals ++ keyvals').
Proof.
  intros H. unfold probe.With, probe.clone. simpl.
  destruct (New_fields (probe.opts lg)) as (Hl & _ & Ho & _).
  rewrite ?Ho, Hl, (zapfields_even_app _ _ H). simpl. rewrite !app_assoc, ?Ho. reflexivity.
Qed.

Lemma With_With_witness :
  probe.With (probe.With (probe.New []) [probe.any_string "topic"; probe.any_string "orders"])
    [probe.any_string "partition"; probe.any_other "int32" "1"] =
  probe.With (probe.New [])
    ([probe.any_string "topic"; probe.any_string "orders"]
     ++ [probe.any_string "partition"; probe.any_other "int32" "1"]).
Proof.
  apply (With_With (probe.New []) [probe.any_string "topic"; probe.any_string "orders"]).
  reflexivity.
Defined.

(** ** Writing an entry (logger.go, lines 74-97) *)

Section Gates.

Variable Sprint : list probe.any -> string.
Variable Sprintf : string -> list probe.any -> string.
Variable debug_Stack : string.
Variable runtime_caller : Z -> probe.any.

(** The order zap puts on its levels, and its filter: an entry passes
    [Check] when its level is at or above the level zap filters at. *)
Variable rank : probe.zap_Level -> Z.
Variable zap_Check : probe.zap_Level -> probe.zap_Level -> string -> bool.
Hypothesis rank_order :
  rank probe.zap_DebugLevel < rank probe.zap_InfoLevel
  /\ rank probe.zap_InfoLevel < rank probe.zap_WarnLevel
  /\ rank probe.zap_WarnLevel < rank probe.zap_ErrorLevel
  /\ rank probe.zap_ErrorLevel < rank probe.zap_FatalLevel.
Hypothesis zap_Check_rank :
  forall filter level msg, zap_Check filter level msg = (rank filter <=? rank level).

Lemma tozaplevel_declared (level : probe.Level) :
  0 <= level <= 4 ->
  rank (probe.tozaplevel level) =
  rank (nth (Z.to_nat level)
          [probe.zap_FatalLevel; probe.zap_ErrorLevel; probe.zap_WarnLevel;
           probe.zap_InfoLevel; probe.zap_DebugLevel] probe.zap_InfoLevel).
Proof.
  intros H.
  assert (Hl : level = 0 \/ level = 1 \/ level = 2 \/ level = 3 \/ level = 4) by lia.
  destruct Hl as [-> | [-> | [-> | [-> | ->]]]]; reflexivity.
Qed.

(** X18.  On a logger a program can hold, at one of the five declared
    levels, the gate of the package and the filter of zap decide alike
    for an entry of a declared level (given that zap lets through the
    entries at or above its own level).  An entry at or below the level
    of the logger is written, with the message as given when there are
    no arguments to format, the fields of its key-value pairs, then the
    stack trace if it is fatal, then the caller if asked for; an entry
    above the level of the logger is not written.  With the logger set to
    a level above debug that is not declared, debug entries pass the gate
    of the package but not the filter of zap, which is then at info. *)
Theorem Log_on_declared_levels (lg : probe.Logger) (level : probe.Level)
    (text : string) (formatArgs keyvals : list probe.any) :
  probe.reachable lg ->
  0 <= probe.lvl lg <= 4 ->
  0 <= level <= 4 ->
  (level <= probe.lvl lg ->
   probe.Log Sprint Sprintf zap_Check debug_Stack runtime_caller
     lg level text [] keyvals =
   Some {| probe.Level_of := probe.tozaplevel level;
           probe.Message := text;
           probe.Fields :=
             (probe.zapfields keyvals
              ++ (if level =? probe.FatalLevel
                  then [probe.zap_Any "stacktrace" (probe.any_string debug_Stack)]
                  else []))
             ++ (if probe.caller lg
                 then [probe.zap_Any "caller" (runtime_caller (probe.callSkip lg))]
                 else []) |})
  /\ (probe.lvl lg < level ->
      probe.Log Sprint Sprintf zap_Check debug_Stack runtime_caller
        lg level text formatArgs keyvals = None
      /\ rank (probe.tozaplevel level) < rank (probe.alvl lg))
  /\ (forall undeclared, 4 < undeclared ->
      probe.lvl (probe.SetLevel lg undeclared) >= probe.DebugLevel
      /\ zap_Check (probe.alvl (probe.SetLevel lg undeclared))
           (probe.tozaplevel probe.DebugLevel) text = false).
Proof.
  intros Hreach Hlg Hlevel.
  assert (Halvl := reachable_levels lg Hreach).
  assert (Hrank : level <= probe.lvl lg <->
                  rank (probe.alvl lg) <= rank (probe.tozaplevel level)).
  { rewrite Halvl, (tozaplevel_declared _ Hlg), (tozaplevel_declared _ Hlevel).
    assert (Hl : level = 0 \/ level = 1 \/ level = 2 \/ level = 3 \/ level = 4) by lia.
    assert (Hg : probe.lvl lg = 0 \/ probe.lvl lg = 1 \/ probe.lvl lg = 2
                 \/ probe.lvl lg = 3 \/ probe.lvl lg = 4) by lia.
    destruct Hl as [-> | [-> | [-> | [-> | ->]]]];
      destruct Hg as [-> | [-> | [-> | [-> | ->]]]]; simpl; lia. }
  split; [| split].
  - intros Hle. unfold probe.Log.
    replace (probe.lvl lg <? level) with false by (symmetry; apply Z.ltb_ge; lia).
    simpl length. rewrite !andb_false_r.
    rewrite zap_Check_rank.
    replace (rank (probe.alvl lg) <=? rank (probe.tozaplevel level)) with true
      by (symmetry; apply Z.leb_le, Hrank, Hle).
    destruct (level =? probe.FatalLevel), (probe.caller lg);
      rewrite ?app_nil_r; reflexivity.
  - intros Hlt. split.
    + unfold probe.Log.
      replace (probe.lvl lg <? level) with true by (symmetry; apply Z.ltb_lt; lia).
      reflexivity.
    + apply Z.nle_gt. intros Hr. apply Hrank in Hr. lia.
  - intros undeclared Hu. split; [unfold probe.DebugLevel; simpl; lia |].
    rewrite zap_Check_rank. apply Z.leb_gt.
    replace (probe.alvl (probe.SetLevel lg undeclared)) with probe.zap_InfoLevel.
    + apply rank_order.
    + simpl. unfold probe.tozaplevel, probe.FatalLevel, probe.ErrorLevel,
        probe.WarnLevel, probe.InfoLevel, probe.DebugLevel.
      repeat (match goal with
              | |- context [?a =? ?b] =>
                  replace (a =? b) with false by (symmetry; apply Z.eqb_neq; lia)
              end).
      reflexivity.
Qed.

End Gates.

Lemma Log_on_declared_levels_witness :
  probe.Log (fun _ => "") (fun format _ => format)
    (fun filter level _ => sample_rank filter <=? sample_rank level)
    "goroutine 1 [running]" (fun _ => probe.any_other "log.call" "main.go:91")
    (probe.New [probe.WithWarn]) probe.ErrorLevel "100% done" []
    [probe.any_string "topic"; probe.any_string "orders"] =
  Some {| probe.Level_of := probe.zap_ErrorLevel;
          probe.Message := "100% done";
          probe.Fields :=
            [probe.zap_Any "topic" (probe.any_string "orders");
             probe.zap_Any "caller" (probe.any_other "log.call" "main.go:91")] |}
  /\ probe.Log (fun _ => "") (fun format _ => format)
       (fun filter level _ => sample_rank filter <=? sample_rank level)
       "goroutine 1 [running]" (fun _ => probe.any_other "log.call" "main.go:91")
       (probe.New [probe.WithWarn]) probe.DebugLevel "found topic" []
       [probe.any_string "topic"; probe.any_string "orders"] = None.
Proof.
  assert (Hrank : sample_rank probe.zap_DebugLevel < sample_rank probe.zap_InfoLevel
                  /\ sample_rank probe.zap_InfoLevel < sample_rank probe.zap_WarnLevel
                  /\ sample_rank probe.zap_WarnLevel < sample_rank probe.zap_ErrorLevel
                  /\ sample_rank probe.zap_ErrorLevel < sample_rank probe.zap_FatalLevel)
    by (simpl; lia).
  split.
  - apply (Log_on_declared_levels (fun _ => "") (fun format _ => format)
             "goroutine 1 [running]" (fun _ => probe.any_other "log.call" "main.go:91")
             sample_rank (fun filter level _ => sample_rank filter <=? sample_rank level)
             Hrank (fun _ _ _ => eq_refl)
             (probe.New [probe.WithWarn]) probe.ErrorLevel "100% done" []
             [probe.any_string "topic"; probe.any_string "orders"]).
    + constructor.
    + vm_compute. split; discriminate.
    + vm_compute. split; discriminate.
    + vm_compute. discriminate.
  - apply (Log_on_declared_levels (fun _ => "") (fun format _ => format)
             "goroutine 1 [running]" (fun _ => probe.any_other "log.call" "main.go:91")
             sample_rank (fun filter level _ => sample_rank filter <=? sample_rank level)
             Hrank (fun _ _ _ => eq_refl)
             (probe.New [probe.WithWarn]) probe.DebugLevel "found topic" []
             [probe.any_string "topic"; probe.any_string "orders"]).
    + constructor.
    + vm_compute. split; discriminate.
    + vm_compute. split; discriminate.
    + vm_compute. reflexivity.
Defined.
